(** * The scoring engine of the LLM-Arena backend (src/src/index.ts)

    A shallow embedding of the evaluation and scoring code of the Express
    server: the text metrics, the rule-based criteria evaluator, the
    prompt-quality heuristic, the reverse-engineering evaluator, the two
    scoring endpoints with their effect on the persistence store, and the
    progress computation over a team's submission history.

    Modelling conventions.
    - A JavaScript string is the list of its UTF-16 code units ([list N]).
      The [u] flag of the pattern of [findForbidden], which only changes
      how surrogate pairs are read, is not modelled.
    - A JavaScript number that the code treats as a quantity (scores,
      criteria bounds, multipliers) is an exact rational ([Q]); counts and
      round ordinals are integers ([Z]) or naturals.  [Math.round(x)] is
      [floor (x + 1/2)].
    - [String.prototype.toLowerCase] is modelled on the ASCII letters and
      leaves every other code unit unchanged.
    - The [feedback] text of an evaluation result is not modelled; a
      violation code is kept as a constructor carrying the values that the
      source interpolates into the code string.
    - The text returned by the generation service is an argument of the
      submit-prompt handler, and the calls to the persistence store succeed:
      the [catch] branches that answer 500 are not modelled. *)

From Stdlib Require Import List ZArith QArith Qround Qminmax Qabs Bool Lia Lqa String Ascii.
From stdpp Require Import gmap.
Import ListNotations.

Abbreviation jsstring := (list N) (only parsing).

(** ** JavaScript strings *)
Module Js.

(** An ASCII literal as a JavaScript string. *)
Fixpoint str (s : string) : jsstring :=
  match s with
  | EmptyString => []
  | String a rest => N_of_ascii a :: str rest
  end.

Arguments str s%_string.

(** U+20B9, the rupee sign. *)
Definition rupee : N := 8377%N.

Definition between (lo hi c : N) : bool := ((lo <=? c) && (c <=? hi))%N.

(** [\d] *)
Definition isDigit (c : N) : bool := between 48 57 c.

(** [\w]: [A-Za-z0-9_] *)
Definition isWordChar (c : N) : bool :=
  between 65 90 c || between 97 122 c || isDigit c || (c =? 95)%N.

(** [\s], which is also the set that [trim] strips: the WhiteSpace and
    LineTerminator code points of ECMAScript. *)
Definition isSpace (c : N) : bool :=
  between 9 13 c || (c =? 32)%N || (c =? 160)%N || (c =? 5760)%N
  || between 8192 8202 c || (c =? 8232)%N || (c =? 8233)%N || (c =? 8239)%N
  || (c =? 8287)%N || (c =? 12288)%N || (c =? 65279)%N.

Definition lowerUnit (c : N) : N := if between 65 90 c then (c + 32)%N else c.

Definition toLowerCase (s : jsstring) : jsstring := map lowerUnit s.

Fixpoint startsWith (t w : jsstring) : bool :=
  match w, t with
  | [], _ => true
  | _ :: _, [] => false
  | a :: w', b :: t' => (a =? b)%N && startsWith t' w'
  end.

(** [t.includes(w)] *)
Fixpoint includes (t w : jsstring) : bool :=
  startsWith t w
  || match t with
     | [] => false
     | _ :: t' => includes t' w
     end.

Fixpoint dropWhile (p : N -> bool) (s : jsstring) : jsstring :=
  match s with
  | [] => []
  | c :: s' => if p c then dropWhile p s' else s
  end.

(** [s.trim()] *)
Definition trim (s : jsstring) : jsstring :=
  rev (dropWhile isSpace (rev (dropWhile isSpace s))).

(** [s.split(/\s+/)]: the pieces between maximal whitespace runs.  [cur]
    is the piece being read (reversed) and [inSep] tells that the scan is
    inside a separator.  A separator at either end leaves an empty piece
    there, and the empty string splits into one empty piece. *)
Fixpoint splitSpacesFrom (inSep : bool) (cur s : jsstring) : list jsstring :=
  match s with
  | [] => [rev cur]
  | c :: rest =>
      if isSpace c
      then (if inSep then splitSpacesFrom true cur rest
            else rev cur :: splitSpacesFrom true [] rest)
      else splitSpacesFrom false (c :: cur) rest
  end.

Definition splitSpaces (s : jsstring) : list jsstring := splitSpacesFrom false [] s.

End Js.

(** ** A backtracking matcher for the regular expressions of the source *)
Module Re.
Import Js.

Inductive regex : Type :=
| Eps
| Chr (c : N)                 (* one literal code unit *)
| Cls (p : N -> bool)         (* a character class: [\d], [\s], [\w] *)
| WordBoundary                (* [\b] *)
| Cat (r1 r2 : regex)
| Alt (r1 r2 : regex)
| Opt (r : regex)             (* [r?] *)
| Plus (r : regex).           (* [r+] *)

(** The literal text [w] as a pattern. *)
Fixpoint lit (w : jsstring) : regex :=
  match w with
  | [] => Eps
  | c :: w' => Cat (Chr c) (lit w')
  end.

(** [w1|w2|...] *)
Fixpoint alts (rs : list regex) : regex :=
  match rs with
  | [] => Cls (fun _ => false)
  | [r] => r
  | r :: rs' => Alt r (alts rs')
  end.

Definition words (ws : list string) : regex := alts (map (fun w => lit (str w)) ws).

Arguments words ws%_list.

(** Canonicalize of the [i] flag (no [u] flag): the upper-case mapping,
    which sends no code unit above 127 to an ASCII one. *)
Definition canonicalize (ignoreCase : bool) (c : N) : N :=
  if ignoreCase && between 97 122 c then (c - 32)%N else c.

(** A matcher state: the code unit before the current position, if any,
    and the text that remains. *)
Definition mstate : Type := option N * jsstring.

Definition isWordOpt (c : option N) : bool :=
  match c with
  | Some x => isWordChar x
  | None => false
  end.

(** One or more greedy repetitions of the step [f], at most [fuel] of them. *)
Fixpoint repeat1 (f : mstate -> list mstate) (fuel : nat) (st : mstate) : list mstate :=
  match fuel with
  | O => []
  | S k => flat_map (fun st' => repeat1 f k st' ++ [st']) (f st)
  end.

(** All the states in which a match of [r] that starts in [st] can end, in
    the order in which a backtracking matcher tries them. *)
Fixpoint run (ignoreCase : bool) (r : regex) (st : mstate) : list mstate :=
  match r with
  | Eps => [st]
  | Chr c =>
      match snd st with
      | x :: t =>
          if (canonicalize ignoreCase x =? canonicalize ignoreCase c)%N
          then [(Some x, t)] else []
      | [] => []
      end
  | Cls p =>
      match snd st with
      | x :: t => if p x then [(Some x, t)] else []
      | [] => []
      end
  | WordBoundary =>
      if xorb (isWordOpt (fst st)) (isWordOpt (head (snd st))) then [st] else []
  | Cat r1 r2 => flat_map (run ignoreCase r2) (run ignoreCase r1 st)
  | Alt r1 r2 => run ignoreCase r1 st ++ run ignoreCase r2 st
  | Opt r1 => run ignoreCase r1 st ++ [st]
  | Plus r1 => repeat1 (run ignoreCase r1) (S (length (snd st))) st
  end.

(** The length of the match found at the current position, if any. *)
Definition matchHere (ignoreCase : bool) (r : regex) (st : mstate) : option nat :=
  match run ignoreCase r st with
  | (_, rest) :: _ => Some (length (snd st) - length rest)%nat
  | [] => None
  end.

(** [r.test(t)] for a pattern without the [g] and [y] flags: a match at
    some position. *)
Fixpoint testFrom (ignoreCase : bool) (r : regex) (prev : option N) (t : jsstring) : bool :=
  match matchHere ignoreCase r (prev, t) with
  | Some _ => true
  | None =>
      match t with
      | [] => false
      | c :: t' => testFrom ignoreCase r (Some c) t'
      end
  end.

Definition test (ignoreCase : bool) (r : regex) (t : jsstring) : bool :=
  testFrom ignoreCase r None t.

(** The number of matches that [t.match(r)] returns for a pattern with the
    [g] flag: after a match the search resumes where the match ended, one
    code unit further when the match was empty.  [skip] counts the code
    units still covered by the last match. *)
Fixpoint countFrom (ignoreCase : bool) (r : regex) (skip : nat) (prev : option N)
         (t : jsstring) : nat :=
  match skip with
  | S k =>
      match t with
      | [] => O
      | c :: t' => countFrom ignoreCase r k (Some c) t'
      end
  | O =>
      match matchHere ignoreCase r (prev, t) with
      | Some len =>
          S (match t with
             | [] => O
             | c :: t' => countFrom ignoreCase r (pred len) (Some c) t'
             end)
      | None =>
          match t with
          | [] => O
          | c :: t' => countFrom ignoreCase r O (Some c) t'
          end
      end
  end.

Definition matchCount (ignoreCase : bool) (r : regex) (t : jsstring) : nat :=
  countFrom ignoreCase r O None t.

End Re.

(** ** Text metrics *)
Module TextMetrics.
Import Js Re.

(** [countWords]: the number of matches of [/\w+/g]; [0] for the empty
    text. *)
Definition countWords (text : jsstring) : nat :=
  match text with
  | [] => O
  | _ => matchCount false (Plus (Cls isWordChar)) text
  end.

(** [findForbidden]: the listed words [w] for which
    [new RegExp('\\b' + escapeRegExp(w.toLowerCase()) + '\\b', 'u')] matches
    the lower-cased text.  [escapeRegExp] escapes every syntax character,
    so the pattern between the two [\b] matches the word literally. *)
Definition findForbidden (text : jsstring) (forbidden : list jsstring) : list jsstring :=
  let t := toLowerCase text in
  List.filter (fun w => test false (Cat WordBoundary (Cat (lit (toLowerCase w)) WordBoundary)) t)
         forbidden.

(** [containsRequired]: the listed elements that the lower-cased text does
    not include; despite its name it returns the missing ones. *)
Definition containsRequired (text : jsstring) (required : list jsstring) : list jsstring :=
  let t := toLowerCase text in
  List.filter (fun w => negb (includes t (toLowerCase w))) required.

(** The four price patterns of [detectPrice]:
    [/\$\s?\d+/], [/\bRs\.?\s?\d+/i], [/\bINR\b\s?\d+/i], [/\d+\s?₹/]. *)
Definition pricePatterns : list (bool * regex) :=
  [ (false, Cat (Chr 36) (Cat (Opt (Cls isSpace)) (Plus (Cls isDigit))));
    (true, Cat WordBoundary (Cat (lit (str "Rs"))
             (Cat (Opt (Chr 46)) (Cat (Opt (Cls isSpace)) (Plus (Cls isDigit))))));
    (true, Cat WordBoundary (Cat (lit (str "INR"))
             (Cat WordBoundary (Cat (Opt (Cls isSpace)) (Plus (Cls isDigit))))));
    (false, Cat (Plus (Cls isDigit)) (Cat (Opt (Cls isSpace)) (Chr rupee))) ].

Definition detectPrice (text : jsstring) : bool :=
  match text with
  | [] => false
  | _ => existsb (fun p => test (fst p) (snd p) text) pricePatterns
  end.

Inductive Sentiment : Type := positive | negative | neutral.

Definition Sentiment_eqb (a b : Sentiment) : bool :=
  match a, b with
  | positive, positive | negative, negative | neutral, neutral => true
  | _, _ => false
  end.

Definition positiveWords : regex :=
  Cat WordBoundary
    (Cat (words ["good"; "great"; "excellent"; "positive"; "love"; "like"]%string) WordBoundary).

Definition negativeWords : regex :=
  Cat WordBoundary
    (Cat (words ["bad"; "terrible"; "awful"; "hate"; "dislike"; "poor"]%string) WordBoundary).

Definition simpleSentiment (text : jsstring) : Sentiment :=
  match text with
  | [] => neutral
  | _ =>
      let pos := matchCount true positiveWords text in
      let neg := matchCount true negativeWords text in
      if (neg <? pos)%nat then positive
      else if (pos <? neg)%nat then negative
      else neutral
  end.

End TextMetrics.

(** ** The evaluators *)
Module Evaluator.
Import Js Re TextMetrics.
Local Open Scope Q_scope.

(** [interface EvaluationCriteria]: a field is [Some] when the key is
    present with a value of the type that the evaluator tests for. *)
Record EvaluationCriteria : Type := {
  wordCount : option Q;
  maxWords : option Q;
  containsPrice : option bool;
  requiredElements : option (list jsstring);
  forbiddenWords : option (list jsstring);
  sentiment : option Sentiment
}.

Definition noCriteria : EvaluationCriteria :=
  {| wordCount := None; maxWords := None; containsPrice := None;
     requiredElements := None; forbiddenWords := None; sentiment := None |}.

(** The violation codes, with the values interpolated into each. *)
Inductive Violation : Type :=
| too_short                                        (* 'too_short' *)
| very_brief                                       (* 'very_brief' *)
| wordCount_mismatch (wc : nat) (expected : Q)     (* `wordCount:${wc}/${expected}` *)
| exceeded_maxWords (wc : nat) (mw : Q)            (* `exceeded_maxWords:${wc}/${mw}` *)
| missing_price                                    (* 'missing_price' *)
| unexpected_price                                 (* 'unexpected_price' *)
| missing_elements (missing : list jsstring)       (* `missing_elements:${missing.join(',')}` *)
| forbidden_words (found : list jsstring)          (* `forbidden_words:${found.join(',')}` *)
| sentiment_mismatch (want got : Sentiment)        (* `sentiment_mismatch:expected_${want}_got_${got}` *)
| missing_prompt_reconstruction                    (* 'missing_prompt_reconstruction' *)
| missing_reasoning                                (* 'missing_reasoning' *)
| missing_context_understanding.                   (* 'missing_context_understanding' *)

(** [interface EvaluationResult], without the feedback text. *)
Record EvaluationResult : Type := {
  score : Q;
  violations : list Violation
}.

(** [Math.round(x * 100) / 100] *)
Definition round2 (x : Q) : Q := inject_Z (Qfloor (x * 100 + (1#2))) / 100.

Definition Qltb (x y : Q) : bool := negb (Qle_bool y x).

Definition ofNat (n : nat) : Q := inject_Z (Z.of_nat n).

(** [violations.push(v); score -= p] on the running result. *)
Definition penalise (v : Violation) (p : Q) (r : EvaluationResult) : EvaluationResult :=
  {| score := score r - p; violations := violations r ++ [v] |}.

(** [if (score < 0) score = 0] *)
Definition clampFloor (r : EvaluationResult) : EvaluationResult :=
  if Qltb (score r) 0 then {| score := 0; violations := violations r |} else r.

(** The checks of [evaluateOutputAgainstCriteria], each one a step on the
    running result, in the order of the source. *)

(** Lines 463-469: the baseline length penalty. *)
Definition checkLength (wc : nat) (r : EvaluationResult) : EvaluationResult :=
  if (wc <? 10)%nat then penalise too_short 30 r
  else if (wc <? 20)%nat then penalise very_brief 15 r
  else r.

(** Lines 471-477: [Math.min(25, Math.abs(wc - expected) * 1.5)]. *)
Definition checkWordCount (wc : nat) (criteria : EvaluationCriteria)
           (r : EvaluationResult) : EvaluationResult :=
  match wordCount criteria with
  | Some expected =>
      if negb (Qeq_bool (ofNat wc) expected)
      then penalise (wordCount_mismatch wc expected)
                    (Qmin 25 (Qabs (ofNat wc - expected) * (3#2))) r
      else r
  | None => r
  end.

(** Lines 479-485: [Math.min(25, (wc - mw) * 1.2)]. *)
Definition checkMaxWords (wc : nat) (criteria : EvaluationCriteria)
           (r : EvaluationResult) : EvaluationResult :=
  match maxWords criteria with
  | Some mw =>
      if Qltb mw (ofNat wc)
      then penalise (exceeded_maxWords wc mw) (Qmin 25 ((ofNat wc - mw) * (6#5))) r
      else r
  | None => r
  end.

(** Lines 487-498. *)
Definition checkPrice (output : jsstring) (criteria : EvaluationCriteria)
           (r : EvaluationResult) : EvaluationResult :=
  match containsPrice criteria with
  | Some wantsPrice =>
      let hasPrice := detectPrice output in
      let r := if wantsPrice && negb hasPrice then penalise missing_price 15 r else r in
      if negb wantsPrice && hasPrice then penalise unexpected_price 5 r else r
  | None => r
  end.

(** Lines 500-506. *)
Definition checkRequired (output : jsstring) (criteria : EvaluationCriteria)
           (r : EvaluationResult) : EvaluationResult :=
  match requiredElements criteria with
  | Some required =>
      let missing := containsRequired output required in
      match missing with
      | [] => r
      | _ => penalise (missing_elements missing) (12 * ofNat (length missing)) r
      end
  | None => r
  end.

(** Lines 508-514. *)
Definition checkForbidden (output : jsstring) (criteria : EvaluationCriteria)
           (r : EvaluationResult) : EvaluationResult :=
  match forbiddenWords criteria with
  | Some forbidden =>
      let found := findForbidden output forbidden in
      match found with
      | [] => r
      | _ => penalise (forbidden_words found) (15 * ofNat (length found)) r
      end
  | None => r
  end.

(** Lines 516-523. *)
Definition checkSentiment (output : jsstring) (criteria : EvaluationCriteria)
           (r : EvaluationResult) : EvaluationResult :=
  match sentiment criteria with
  | Some want =>
      let got := simpleSentiment output in
      if negb (Sentiment_eqb want got) then penalise (sentiment_mismatch want got) 8 r
      else r
  | None => r
  end.

(** Lines 457-526: the running score and violations after every check and
    the floor clamp, before the multiplier is applied. *)
Definition preMultiplier (output : jsstring) (criteria : EvaluationCriteria)
  : EvaluationResult :=
  let wc := countWords output in
  let r := {| score := 70; violations := [] |} in
  let r := checkLength wc r in
  let r := checkWordCount wc criteria r in
  let r := checkMaxWords wc criteria r in
  let r := checkPrice output criteria r in
  let r := checkRequired output criteria r in
  let r := checkForbidden output criteria r in
  let r := checkSentiment output criteria r in
  clampFloor r.

(** [evaluateOutputAgainstCriteria(output, criteria, roundMultiplier)] *)
Definition evaluateOutputAgainstCriteria (output : jsstring)
           (criteria : EvaluationCriteria) (roundMultiplier : Q) : EvaluationResult :=
  let r := preMultiplier output criteria in
  let finalScore := score r * roundMultiplier in
  {| score := round2 finalScore; violations := violations r |}.

(** [prompt.trim().split(/\s+/).length] *)
Definition promptWords (prompt : jsstring) : Z :=
  Z.of_nat (length (splitSpaces (trim prompt))).

Definition marketingTerms : regex :=
  Alt (words ["product"; "marketing"; "description"; "compelling"; "features";
              "benefits"]%string)
      (Cat (lit (str "customer")) (Opt (Chr 115))).
Definition brandTerms : regex :=
  words ["creative"; "innovative"; "unique"; "brand"; "target"; "audience"]%string.
Definition businessTerms : regex :=
  words ["business"; "strategy"; "plan"; "market"; "analysis"; "financial"; "revenue";
         "growth"]%string.
Definition fundingTerms : regex :=
  words ["competitive"; "scalable"; "funding"; "team"; "projections"; "risk";
         "mitigation"]%string.
Definition actionTerms : regex :=
  words ["create"; "generate"; "develop"; "build"; "design"; "write"]%string.
Definition qualityTerms : regex :=
  words ["detailed"; "comprehensive"; "specific"; "professional"; "high-quality"]%string.

(** [if (re.test(prompt)) score += bonus], every pattern carrying the [i] flag. *)
Definition bonusIf (re : regex) (prompt : jsstring) (bonus score : Z) : Z :=
  if test true re prompt then (score + bonus)%Z else score.

(** [evaluatePromptQuality(prompt, roundNum)] *)
Definition evaluatePromptQuality (prompt : jsstring) (roundNum : Z) : Z :=
  let words := promptWords prompt in
  let score := 60%Z in
  let score :=
    if (words <? 5)%Z then (score - 30)%Z
    else if (words <? 10)%Z then (score - 15)%Z
    else if (15 <? words)%Z then (score + 10)%Z
    else score in
  let score :=
    if (roundNum =? 1)%Z
    then bonusIf brandTerms prompt 10 (bonusIf marketingTerms prompt 15 score)
    else if (roundNum =? 3)%Z
    then bonusIf fundingTerms prompt 10 (bonusIf businessTerms prompt 15 score)
    else score in
  let score := bonusIf actionTerms prompt 5 score in
  let score := bonusIf qualityTerms prompt 8 score in
  Z.max 20 (Z.min 100 score).

(** [response.includes(w1) || response.includes(w2) || ...] *)
Definition includesAny (response : jsstring) (ws : list string) : bool :=
  existsb (fun w => includes response (str w)) ws.

Arguments includesAny response ws%_list.

(** [evaluateReverseEngineering(userResponse)] *)
Definition evaluateReverseEngineering (userResponse : jsstring) : EvaluationResult :=
  let r := {| score := 100; violations := [] |} in
  let response := toLowerCase userResponse in
  let hasPromptReconstruction :=
    includesAny response ["prompt"; "ask"; "write"; "create"]%string in
  let r := if negb hasPromptReconstruction
           then penalise missing_prompt_reconstruction 30 r else r in
  let hasReasoning :=
    includesAny response ["because"; "likely"; "suggests"; "indicates"; "reasoning"]%string in
  let r := if negb hasReasoning then penalise missing_reasoning 25 r else r in
  let hasAnalysis :=
    includesAny response ["style"; "format"; "structure"; "detail"]%string in
  let r := if hasAnalysis
           then {| score := score r + 10; violations := violations r |} else r in
  let hasContextUnderstanding :=
    includesAny response ["recipe"; "cooking"; "baking"; "ingredients"]%string in
  let r := if negb hasContextUnderstanding
           then penalise missing_context_understanding 15 r else r in
  let r := clampFloor r in
  {| score := round2 (score r); violations := violations r |}.

(** A criteria bound that is a whole number, as a count of words is. *)
Definition isWhole (bound : option Q) : bool :=
  match bound with
  | Some q => Qeq_bool q (inject_Z (Qfloor q))
  | None => true
  end.

Definition wholeBounds (criteria : EvaluationCriteria) : bool :=
  isWhole (wordCount criteria) && isWhole (maxWords criteria).

End Evaluator.

(** ** The scoring endpoints and the persistence store *)
Module Policy.
Import Js TextMetrics Evaluator.
Local Open Scope Q_scope.

Definition PASSING_THRESHOLD : Q := 60.

(** [roundNum === 1 ? 1.0 : roundNum === 2 ? 1.5 : roundNum === 3 ? 2.0 : 1.0] *)
Definition multiplierOf (roundNum : Z) : Q :=
  if (roundNum =? 1)%Z then 1
  else if (roundNum =? 2)%Z then 3#2
  else if (roundNum =? 3)%Z then 2
  else 1.

(** The [constraints] object of a submit-prompt body; [maxTokens] only
    bounds the generation call and is left out. *)
Record Constraints : Type := {
  c_maxWords : option Q;
  c_forbiddenWords : option (list jsstring)
}.

Definition noConstraints : Constraints :=
  {| c_maxWords := None; c_forbiddenWords := None |}.

(** Lines 588-617 of the submit-prompt handler: the evaluation result for
    a prompt, the generated text [llmResp], the round and the constraints. *)
Definition scoreSubmission (prompt llmResp : jsstring) (roundNum : Z)
           (constraintsObj : Constraints) : EvaluationResult :=
  let multiplier := multiplierOf roundNum in
  if (roundNum =? 2)%Z then
    let evalResult := evaluateReverseEngineering prompt in
    {| score := round2 (score evalResult * multiplier);
       violations := violations evalResult |}
  else
    let criteria :=
      {| wordCount := None; maxWords := c_maxWords constraintsObj;
         containsPrice := None; requiredElements := None;
         forbiddenWords := c_forbiddenWords constraintsObj; sentiment := None |} in
    let evalResult := evaluateOutputAgainstCriteria llmResp criteria 1 in
    let promptScore := evaluatePromptQuality prompt roundNum in
    let combinedScore := score evalResult * (6#10) + inject_Z promptScore * (4#10) in
    {| score := round2 (combinedScore * multiplier);
       violations := violations evalResult |}.

(** A row of the Submission table, without the generated id and timestamp. *)
Record Submission : Type := {
  sub_teamId : jsstring;
  sub_round : option Z;
  sub_challenge : option jsstring;
  sub_prompt : jsstring;
  sub_llmResponse : jsstring;
  sub_score : Q;
  sub_tokensUsed : Z;
  sub_violations : option (list Violation)
}.

(** The persistence store: the score column of the Team table by team id,
    and the Submission table in insertion order. *)
Record Store : Type := {
  teams : gmap (list N) Q;
  submissions : list Submission
}.

(** [prisma.submission.create] *)
Definition createSubmission (s : Submission) (st : Store) : Store :=
  {| teams := teams st; submissions := submissions st ++ [s] |}.

(** [prisma.team.update({ where: { id }, data: { score } })] *)
Definition updateTeamScore (id : jsstring) (newScore : Q) (st : Store) : Store :=
  {| teams := <[id := newScore]> (teams st); submissions := submissions st |}.

(** A string field that passes [if (!field)]: present and not empty. *)
Definition truthy (field : option jsstring) : option jsstring :=
  match field with
  | Some (c :: s) => Some (c :: s)
  | _ => None
  end.

(** [(violations || []).join(';') || null] *)
Definition joinedViolations (vs : list Violation) : option (list Violation) :=
  match vs with
  | [] => None
  | _ => Some vs
  end.

Record SubmitPromptBody : Type := {
  teamId : option jsstring;
  round : option Z;
  challenge : option jsstring;
  prompt : option jsstring;
  constraints : option Constraints
}.

Inductive SubmitResponse : Type :=
| SubmitError (status : Z)
| SubmitScored (passed : bool) (responseScore : Q).

(** [POST /api/submit-prompt], with the text that the generation service
    returns for the prompt as the argument [llmResp]. *)
Definition submitPrompt (st : Store) (body : SubmitPromptBody) (llmResp : jsstring)
  : Store * SubmitResponse :=
  match truthy (teamId body), truthy (prompt body) with
  | Some tid, Some prompt =>
      match teams st !! tid with
      | None => (st, SubmitError 404)
      | Some teamScore =>
          let constraintsObj :=
            match constraints body with
            | Some c => c
            | None => noConstraints
            end in
          let tokensUsed := Z.max 1 (Z.of_nat (countWords llmResp)) in
          let roundNum :=
            match round body with
            | Some 0%Z | None => 1%Z
            | Some r => r
            end in
          let evalResult := scoreSubmission prompt llmResp roundNum constraintsObj in
          let passed := Qle_bool PASSING_THRESHOLD (score evalResult) in
          let st :=
            createSubmission
              {| sub_teamId := tid; sub_round := round body;
                 sub_challenge := challenge body; sub_prompt := prompt;
                 sub_llmResponse := llmResp; sub_score := score evalResult;
                 sub_tokensUsed := tokensUsed;
                 sub_violations := joinedViolations (violations evalResult) |} st in
          if passed
          then (updateTeamScore tid (teamScore + score evalResult) st,
                SubmitScored true (score evalResult))
          else (st, SubmitScored false (score evalResult))
      end
  | _, _ => (st, SubmitError 400)
  end.

(** [SEED_ROUNDS], with the fields that the scoring endpoint reads. *)
Record SeedConstraint : Type := {
  seed_maxWords : option Q;
  seed_forbiddenWords : option (list jsstring);
  seed_requiredElements : option (list jsstring)
}.

Record SeedChallenge : Type := {
  slug : jsstring;
  seed_constraints : option SeedConstraint
}.

Record SeedRound : Type := {
  order : Z;
  challenges : list SeedChallenge
}.

Definition SEED_ROUNDS : list SeedRound :=
  [ {| order := 1;
       challenges :=
         [ {| slug := str "precision-product-description";
              seed_constraints :=
                Some {| seed_maxWords := Some 75;
                        seed_forbiddenWords :=
                          Some [str "revolutionary"; str "groundbreaking";
                                str "unprecedented"; str "game-changing";
                                str "world-class"];
                        seed_requiredElements :=
                          Some [[rupee]; str "battery"; str "camera"; str "mAh"] |} |} ] |};
    {| order := 2;
       challenges :=
         [ {| slug := str "reverse-engineer-recipe"; seed_constraints := None |} ] |};
    {| order := 3;
       challenges :=
         [ {| slug := str "startup-business-plan"; seed_constraints := None |} ] |} ].

Record ScoreBody : Type := {
  sb_teamId : option jsstring;
  sb_prompt : option jsstring;
  sb_llmOutput : option jsstring;
  sb_criteria : option EvaluationCriteria;
  sb_expectedCriteria : option EvaluationCriteria
}.

Inductive ScoreResponse : Type :=
| ScoreError (status : Z)
| ScoreOk (roundOrder : Z) (responseScore : Q) (responseViolations : list Violation).

Definition orElse {A : Type} (a b : option A) : option A :=
  match a with
  | Some x => Some x
  | None => b
  end.

(** The [merged] criteria: the challenge's constraints, overridden field
    by field by the criteria of the request. *)
Definition mergeCriteria (baseCriteria : EvaluationCriteria)
           (constraintCriteria : option SeedConstraint) : EvaluationCriteria :=
  let seedMaxWords :=
    match constraintCriteria with
    | Some c =>
        match seed_maxWords c with
        | Some mw => if Qeq_bool mw 0 then None else Some mw
        | None => None
        end
    | None => None
    end in
  let seedOf (f : SeedConstraint -> option (list jsstring)) :=
    match constraintCriteria with
    | Some c => f c
    | None => None
    end in
  {| wordCount := wordCount baseCriteria;
     maxWords := orElse (maxWords baseCriteria) seedMaxWords;
     containsPrice := containsPrice baseCriteria;
     requiredElements :=
       orElse (requiredElements baseCriteria) (seedOf seed_requiredElements);
     forbiddenWords := orElse (forbiddenWords baseCriteria) (seedOf seed_forbiddenWords);
     sentiment := sentiment baseCriteria |}.

(** The entry of a list at a 1-based index given as a route parameter;
    [None] when the parameter is not an integer or is out of range. *)
Definition atParam {A : Type} (l : list A) (param : option Z) : option A :=
  match param with
  | Some p =>
      let index := (p - 1)%Z in
      if (index <? 0)%Z || (Z.of_nat (length l) <=? index)%Z then None
      else nth_error l (Z.to_nat index)
  | None => None
  end.

(** [POST /api/challenges/:round/:challengeId/score] *)
Definition scoreChallenge (st : Store) (roundParam challengeParam : option Z)
           (body : ScoreBody) : Store * ScoreResponse :=
  match truthy (sb_llmOutput body) with
  | None => (st, ScoreError 400)
  | Some llmOutput =>
      match atParam SEED_ROUNDS roundParam with
      | None => (st, ScoreError 400)
      | Some roundDef =>
          match atParam (challenges roundDef) challengeParam with
          | None => (st, ScoreError 400)
          | Some ch =>
              let baseCriteria :=
                match orElse (sb_criteria body) (sb_expectedCriteria body) with
                | Some c => c
                | None => noCriteria
                end in
              let merged := mergeCriteria baseCriteria (seed_constraints ch) in
              let roundNum := order roundDef in
              let multiplier := multiplierOf roundNum in
              let result := evaluateOutputAgainstCriteria llmOutput merged multiplier in
              let response :=
                ScoreOk (order roundDef) (score result) (violations result) in
              match truthy (sb_teamId body) with
              | None => (st, response)
              | Some tid =>
                  match teams st !! tid with
                  | None => (st, ScoreError 404)
                  | Some teamScore =>
                      let tokens := Z.of_nat (countWords llmOutput) in
                      let st :=
                        createSubmission
                          {| sub_teamId := tid; sub_round := Some (order roundDef);
                             sub_challenge := Some (slug ch);
                             sub_prompt :=
                               match sb_prompt body with
                               | Some p => p
                               | None => str "(scoring) No prompt provided"
                               end;
                             sub_llmResponse := llmOutput; sub_score := score result;
                             sub_tokensUsed := tokens;
                             sub_violations := joinedViolations (violations result) |}
                          st in
                      (updateTeamScore tid (teamScore + score result) st, response)
                  end
              end
          end
      end
  end.

End Policy.

(** ** The progress computation of [GET /api/teams/:id/progress] *)
Module Progress.
Local Open Scope Q_scope.

(** A selected row of the team's submissions: [{ round, score }]. *)
Record HistoryEntry : Type := {
  h_round : option Z;
  h_score : Q
}.

Record Level : Type := {
  level_round : Z;
  unlocked : bool;
  accessible : bool;
  locked : bool;
  completed : bool;
  bestScore : option Q;
  attempts : nat
}.

Definition PASSING_THRESHOLD : Q := 60.

(** [submissions.filter(s => s.round === roundNum)] *)
Definition ofRound (submissions : list HistoryEntry) (roundNum : Z) : list HistoryEntry :=
  List.filter (fun s => match h_round s with
                   | Some r => (r =? roundNum)%Z
                   | None => false
                   end) submissions.

(** [Math.max(0, ...subs.map(s => s.score))] *)
Definition maxScoreFrom0 (subs : list HistoryEntry) : Q :=
  fold_left Qmax (map h_score subs) 0.

Definition isPreviousRoundCompleted (submissions : list HistoryEntry) (round : Z) : bool :=
  if (round <=? 1)%Z then true
  else
    let prevRoundSubs := ofRound submissions (round - 1) in
    let prevBestScore := maxScoreFrom0 prevRoundSubs in
    Qle_bool PASSING_THRESHOLD prevBestScore.

(** The callback of [[1, 2, 3].map(...)].  The two [let]-bound variables
    [accessible] and [locked] start as [false] in every call and are
    assigned in the order of the source. *)
Definition levelOf (submissions : list HistoryEntry) (roundNum : Z) : Level :=
  let roundSubmissions := ofRound submissions roundNum in
  let bestScore := maxScoreFrom0 roundSubmissions in
  let isCompleted := Qle_bool PASSING_THRESHOLD bestScore in
  let accessible := false in
  let locked := false in
  let '(accessible, locked) :=
    if (roundNum =? 1)%Z then
      let accessible := true in
      let locked := isPreviousRoundCompleted submissions 2 in
      (accessible, locked)
    else if (roundNum =? 2)%Z then
      let accessible := isPreviousRoundCompleted submissions roundNum && negb locked in
      let locked := isPreviousRoundCompleted submissions 3 in
      (accessible, locked)
    else if (roundNum =? 3)%Z then
      let accessible := isPreviousRoundCompleted submissions roundNum in
      let locked := false in
      (accessible, locked)
    else (accessible, locked) in
  {| level_round := roundNum;
     unlocked := isPreviousRoundCompleted submissions roundNum;
     accessible := accessible;
     locked := locked;
     completed := isCompleted;
     bestScore := if Evaluator.Qltb 0 bestScore then Some bestScore else None;
     attempts := length roundSubmissions |}.

Definition roundProgress (submissions : list HistoryEntry) : list Level :=
  map (levelOf submissions) [1; 2; 3]%Z.

(** The scores of the history's entries for a round. *)
Definition scoresOf (submissions : list HistoryEntry) (roundNum : Z) : list Q :=
  map h_score (ofRound submissions roundNum).

(** [m] is the maximum of the scores [l]: one of them, and at least as
    large as each. *)
Definition isMaximumOf (m : Q) (l : list Q) : Prop :=
  In m l /\ forall x : Q, In x l -> x <= m.

End Progress.

(** ** The remaining helpers and endpoints *)
Module Endpoints.
Import Js TextMetrics Evaluator Policy Progress.
Local Open Scope Q_scope.

(** The class [[.*+?^${}()|[\]\\]] of [escapeRegExp]. *)
Definition isSyntaxChar (c : N) : bool :=
  existsb (N.eqb c) [46; 42; 43; 63; 94; 36; 123; 125; 40; 41; 124; 91; 93; 92]%N.

(** [escapeRegExp(str)]: [str.replace(/[.*+?^${}()|[\]\\]/g, '\\$&')], a
    backslash in front of every syntax character. *)
Definition escapeRegExp (s : jsstring) : jsstring :=
  flat_map (fun c => if isSyntaxChar c then [92%N; c] else [c]) s.

Fixpoint sameString (a b : jsstring) : bool :=
  match a, b with
  | [], [] => true
  | x :: a', y :: b' => (x =? y)%N && sameString a' b'
  | _, _ => false
  end.

(** [prisma.submission.findMany({ where: { teamId: id },
    select: { round, score, createdAt }, orderBy: { createdAt: 'desc' } })]:
    the team's rows, the latest first. *)
Definition teamHistory (st : Store) (id : jsstring) : list HistoryEntry :=
  rev (map (fun s => {| h_round := sub_round s; h_score := sub_score s |})
           (List.filter (fun s => sameString (sub_teamId s) id) (submissions st))).

Inductive ProgressResponse : Type :=
| ProgressError (status : Z)
| ProgressOk (levels : list Level) (totalScore : Q).

(** [GET /api/teams/:id/progress] *)
Definition teamProgress (st : Store) (id : jsstring) : ProgressResponse :=
  match teams st !! id with
  | None => ProgressError 404
  | Some total => ProgressOk (roundProgress (teamHistory st id)) total
  end.

(** [GET /api/challenges/:round/:challengeId]: the challenge at the two
    1-based indexes, or the answer 400. *)
Definition getChallenge (roundParam challengeParam : option Z) : Z + SeedChallenge :=
  match atParam SEED_ROUNDS roundParam with
  | None => inl 400%Z
  | Some roundDef =>
      match atParam (challenges roundDef) challengeParam with
      | None => inl 400%Z
      | Some ch => inr ch
      end
  end.

(** [parts.join(',')] *)
Fixpoint joinComma (parts : list jsstring) : jsstring :=
  match parts with
  | [] => []
  | [p] => p
  | p :: rest => p ++ 44%N :: joinComma rest
  end.

Record CreateTeamBody : Type := {
  ct_name : option jsstring;
  ct_members : option (list jsstring);
  ct_status : option jsstring
}.

(** The [data] that the register endpoint passes to [prisma.team.create];
    a [status] of [None] leaves the column to its default. *)
Record NewTeam : Type := {
  nt_name : jsstring;
  nt_members : option jsstring;
  nt_status : option jsstring
}.

(** [POST /api/teams/register], up to the call of the store: the answer 400
    or the row to create.  The members of the body are an array when
    present; the source refuses any other value with 400. *)
Definition registerTeam (body : CreateTeamBody) : Z + NewTeam :=
  match truthy (ct_name body) with
  | None => inl 400%Z
  | Some name =>
      match trim name with
      | [] => inl 400%Z
      | trimmed =>
          inr {| nt_name := trimmed;
                 nt_members :=
                   match ct_members body with
                   | Some members => truthy (Some (joinComma members))
                   | None => None
                   end;
                 nt_status := truthy (ct_status body) |}
      end
  end.

(** [PUT /api/teams/:id/status], up to the call of the store: the answer
    400 or 404, or the status to write. *)
Definition updateStatus (st : Store) (id : jsstring) (status : option jsstring)
  : Z + jsstring :=
  match truthy status with
  | None => inl 400%Z
  | Some s =>
      match trim s with
      | [] => inl 400%Z
      | trimmed =>
          match teams st !! id with
          | None => inl 404%Z
          | Some _ => inr trimmed
          end
      end
  end.

End Endpoints.

(** ** Sample inputs *)
Module Samples.
Import Js Evaluator Policy Progress.
Local Open Scope Q_scope.

(** Scenario A of the specification. *)
Definition scenarioA : jsstring :=
  str "Great product! Amazing value for just $99 with a 5000mAh battery and 108MP camera.".

Definition criteriaA : EvaluationCriteria :=
  {| wordCount := None; maxWords := Some 75; containsPrice := None;
     requiredElements := Some [[rupee]; str "battery"; str "camera"];
     forbiddenWords := Some [str "amazing"]; sentiment := None |}.

(** Twenty words, so that no length penalty applies. *)
Definition twentyWords : jsstring :=
  str "a b c d e f g h i j k l m n o p q r s t".

(** An exact word count that is not a whole number. *)
Definition fractionalCount : EvaluationCriteria :=
  {| wordCount := Some (3 # 1000); maxWords := None; containsPrice := None;
     requiredElements := None; forbiddenWords := None; sentiment := None |}.

(** Criteria that ask for a price and nothing else. *)
Definition priceWanted : EvaluationCriteria :=
  {| wordCount := None; maxWords := None; containsPrice := Some true;
     requiredElements := None; forbiddenWords := None; sentiment := None |}.

(** A store with one team, whose total is 10, and no submission. *)
Definition oneTeam : Store :=
  {| teams := {[ str "team-1" := 10 ]}; submissions := [] |}.

(** A round-2 submission whose prompt carries all four kinds of marker. *)
Definition round2Body : SubmitPromptBody :=
  {| teamId := Some (str "team-1"); round := Some 2%Z; challenge := None;
     prompt := Some (str "prompt because style recipe"); constraints := None |}.


Definition teamScore : ScoreBody :=
  {| sb_teamId := Some (str "team-1"); sb_prompt := None;
     sb_llmOutput := Some scenarioA;
     sb_criteria := None; sb_expectedCriteria := None |}.

Definition entry (r : Z) (s : Q) : HistoryEntry := {| h_round := Some r; h_score := s |}.

End Samples.

(** * Properties of the evaluators *)
Module EvaluatorFacts.
Import Js Re TextMetrics Evaluator.
Local Open Scope Q_scope.

(** ** Rounding to two decimals *)

Lemma Qltb_true (x y : Q) : Qltb x y = true <-> x < y.
Proof.
  unfold Qltb. rewrite negb_true_iff. split.
  - intros H. apply Qnot_le_lt. intros Hle.
    apply Qle_bool_iff in Hle. congruence.
  - intros H. destruct (Qle_bool y x) eqn:E; [|reflexivity].
    apply Qle_bool_iff in E. exfalso. apply (Qlt_not_le _ _ H E).
Qed.

Lemma Qltb_false (x y : Q) : Qltb x y = false <-> y <= x.
Proof.
  unfold Qltb. rewrite negb_false_iff. apply Qle_bool_iff.
Qed.

Lemma round2_compat (x y : Q) : x == y -> round2 x = round2 y.
Proof.
  intros H. unfold round2.
  rewrite (Qfloor_comp (x * 100 + (1#2)) (y * 100 + (1#2))); [reflexivity|].
  rewrite H. reflexivity.
Qed.

Lemma round2_le (x y : Q) : x <= y -> round2 x <= round2 y.
Proof.
  intros H. unfold round2, Qdiv.
  apply Qmult_le_compat_r; [|discriminate].
  rewrite <- Zle_Qle. apply Qfloor_resp_le. lra.
Qed.

Lemma Qfloor_half (z : Z) : Qfloor (inject_Z z + (1#2)) = z.
Proof.
  pose proof (Qfloor_le (inject_Z z + (1#2))) as Hlo.
  pose proof (Qlt_floor (inject_Z z + (1#2))) as Hhi.
  set (f := Qfloor (inject_Z z + (1#2))) in *.
  rewrite inject_Z_plus in Hhi. change (inject_Z 1) with 1 in Hhi.
  assert (H1 : inject_Z f < inject_Z (z + 1))
    by (rewrite inject_Z_plus; change (inject_Z 1) with 1; lra).
  assert (H2 : inject_Z z < inject_Z (f + 1))
    by (rewrite inject_Z_plus; change (inject_Z 1) with 1; lra).
  rewrite <- Zlt_Qlt in H1, H2. lia.
Qed.

(** A whole number of hundredths is left as it is. *)
Lemma round2_hundredths (z : Z) : round2 (z # 100) == z # 100.
Proof.
  unfold round2.
  rewrite (Qfloor_comp _ (inject_Z z + (1#2))).
  - rewrite Qfloor_half. unfold Qdiv, Qeq. simpl. lia.
  - unfold Qeq. simpl. lia.
Qed.

Lemma round2_fixed (x : Q) (z : Z) : x == z # 100 -> round2 x == x.
Proof.
  intros H. rewrite (round2_compat _ _ H), H. apply round2_hundredths.
Qed.

(** ** No check of the criteria evaluator adds to the score *)

Lemma ofNat_nonneg (n : nat) : 0 <= ofNat n.
Proof.
  unfold ofNat. change 0 with (inject_Z 0). rewrite <- Zle_Qle. lia.
Qed.

Lemma penalise_le (v : Violation) (p : Q) (r : EvaluationResult) :
  0 <= p -> score (penalise v p r) <= score r.
Proof. intros H. simpl. lra. Qed.

Lemma capped_nonneg (x : Q) : 0 <= x -> 0 <= Qmin 25 x.
Proof. intros H. apply Q.min_glb; [discriminate | exact H]. Qed.

Lemma checkLength_le wc r : score (checkLength wc r) <= score r.
Proof.
  unfold checkLength.
  destruct (wc <? 10)%nat; [apply penalise_le; discriminate|].
  destruct (wc <? 20)%nat; [apply penalise_le; discriminate|]. lra.
Qed.

Lemma checkWordCount_le wc c r : score (checkWordCount wc c r) <= score r.
Proof.
  unfold checkWordCount. destruct (wordCount c) as [expected|]; [|lra].
  destruct (negb _); [|lra].
  apply penalise_le, capped_nonneg.
  pose proof (Qabs_nonneg (ofNat wc - expected)). nra.
Qed.

Lemma checkMaxWords_le wc c r : score (checkMaxWords wc c r) <= score r.
Proof.
  unfold checkMaxWords. destruct (maxWords c) as [mw|]; [|lra].
  destruct (Qltb mw (ofNat wc)) eqn:E; [|lra].
  apply Qltb_true in E. apply penalise_le, capped_nonneg. nra.
Qed.

Lemma checkPrice_le out c r : score (checkPrice out c r) <= score r.
Proof.
  unfold checkPrice. destruct (containsPrice c) as [wants|]; [|lra].
  destruct wants, (detectPrice out); simpl; lra.
Qed.

Lemma checkRequired_le out c r : score (checkRequired out c r) <= score r.
Proof.
  unfold checkRequired. destruct (requiredElements c) as [required|]; [|lra].
  cbv zeta. destruct (containsRequired out required) as [|w ws]; [lra|].
  apply penalise_le. pose proof (ofNat_nonneg (length (w :: ws))). nra.
Qed.

Lemma checkForbidden_le out c r : score (checkForbidden out c r) <= score r.
Proof.
  unfold checkForbidden. destruct (forbiddenWords c) as [forbidden|]; [|lra].
  cbv zeta. destruct (findForbidden out forbidden) as [|w ws]; [lra|].
  apply penalise_le. pose proof (ofNat_nonneg (length (w :: ws))). nra.
Qed.

Lemma checkSentiment_le out c r : score (checkSentiment out c r) <= score r.
Proof.
  unfold checkSentiment. destruct (sentiment c) as [want|]; [|lra].
  cbv zeta. destruct (negb _); [apply penalise_le; discriminate | lra].
Qed.

Lemma clampFloor_score (r : EvaluationResult) :
  0 <= score (clampFloor r) /\ (0 <= score r -> score (clampFloor r) = score r)
  /\ (score r <= 0 -> score (clampFloor r) == 0).
Proof.
  unfold clampFloor. destruct (Qltb (score r) 0) eqn:E.
  - apply Qltb_true in E. simpl. repeat split; try lra.
  - apply Qltb_false in E. repeat split; try lra.
Qed.

Lemma clampFloor_violations (r : EvaluationResult) :
  violations (clampFloor r) = violations r.
Proof. unfold clampFloor. destruct (Qltb _ _); reflexivity. Qed.

Lemma preMultiplier_range (output : jsstring) (criteria : EvaluationCriteria) :
  0 <= score (preMultiplier output criteria) <= 70.
Proof.
  unfold preMultiplier. cbv zeta.
  set (wc := countWords output).
  set (r0 := {| score := 70; violations := [] |}).
  set (r1 := checkLength wc r0).
  set (r2 := checkWordCount wc criteria r1).
  set (r3 := checkMaxWords wc criteria r2).
  set (r4 := checkPrice output criteria r3).
  set (r5 := checkRequired output criteria r4).
  set (r6 := checkForbidden output criteria r5).
  set (r7 := checkSentiment output criteria r6).
  pose proof (checkLength_le wc r0).
  pose proof (checkWordCount_le wc criteria r1).
  pose proof (checkMaxWords_le wc criteria r2).
  pose proof (checkPrice_le output criteria r3).
  pose proof (checkRequired_le output criteria r4).
  pose proof (checkForbidden_le output criteria r5).
  pose proof (checkSentiment_le output criteria r6).
  assert (H70 : score r7 <= 70) by (change (score r0) with 70 in *; subst r1 r2 r3 r4 r5 r6 r7; lra).
  destruct (clampFloor_score r7) as (Hnonneg & Hkeep & Hzero).
  split; [exact Hnonneg|].
  destruct (Qlt_le_dec (score r7) 0) as [Hneg | Hpos].
  - rewrite Hzero by lra. discriminate.
  - rewrite Hkeep by exact Hpos. exact H70.
Qed.

(** ** Scores on the grid of tenths *)

Definition tenths (q : Q) : Prop := exists z : Z, q == z # 10.

Lemma tenths_compat (a b : Q) : a == b -> tenths a -> tenths b.
Proof. intros E [z H]. exists z. rewrite <- E. exact H. Qed.

Lemma tenths_int (z : Z) : tenths (inject_Z z).
Proof. exists (z * 10)%Z. unfold Qeq. simpl. lia. Qed.

Lemma tenths_minus (a b : Q) : tenths a -> tenths b -> tenths (a - b).
Proof.
  intros [x Hx] [y Hy]. exists (x - y)%Z. rewrite Hx, Hy.
  unfold Qeq. simpl. lia.
Qed.

Lemma tenths_times_int (z : Z) (a : Q) : tenths a -> tenths (inject_Z z * a).
Proof.
  intros [x Hx]. exists (z * x)%Z. rewrite Hx. unfold Qeq. simpl. lia.
Qed.

Lemma tenths_min (a b : Q) : tenths a -> tenths b -> tenths (Qmin a b).
Proof.
  intros Ha Hb. destruct (Q.min_spec a b) as [[_ E] | [_ E]].
  - apply (tenths_compat a); [symmetry; exact E | exact Ha].
  - apply (tenths_compat b); [symmetry; exact E | exact Hb].
Qed.

Lemma tenths_const (n : Z) : tenths (n # 10).
Proof. exists n. reflexivity. Qed.

Lemma tenths_penalise v p r :
  tenths (score r) -> tenths p -> tenths (score (penalise v p r)).
Proof. intros Hr Hp. simpl. apply tenths_minus; assumption. Qed.

Lemma isWhole_int (q : Q) : isWhole (Some q) = true -> exists z : Z, q == inject_Z z.
Proof. simpl. intros H. apply Qeq_bool_iff in H. eauto. Qed.

Lemma checkLength_tenths wc r : tenths (score r) -> tenths (score (checkLength wc r)).
Proof.
  intros H. unfold checkLength.
  destruct (wc <? 10)%nat; [apply tenths_penalise; [exact H | apply (tenths_int 30)]|].
  destruct (wc <? 20)%nat; [apply tenths_penalise; [exact H | apply (tenths_int 15)]|].
  exact H.
Qed.

Lemma checkWordCount_tenths wc c r :
  isWhole (wordCount c) = true ->
  tenths (score r) -> tenths (score (checkWordCount wc c r)).
Proof.
  intros Hw H. unfold checkWordCount.
  destruct (wordCount c) as [expected|]; [|exact H].
  destruct (negb _); [|exact H].
  destruct (isWhole_int _ Hw) as [e He].
  apply tenths_penalise; [exact H|].
  apply tenths_min; [apply (tenths_int 25)|].
  apply (tenths_compat (inject_Z (Z.abs (Z.of_nat wc - e)) * (15 # 10))).
  - rewrite He. unfold ofNat.
    change (inject_Z (Z.abs (Z.of_nat wc - e))) with (Qabs (inject_Z (Z.of_nat wc - e))).
    unfold Z.sub. rewrite inject_Z_plus, inject_Z_opp.
    apply Qmult_comp; reflexivity.
  - apply tenths_times_int, tenths_const.
Qed.

Lemma checkMaxWords_tenths wc c r :
  isWhole (maxWords c) = true ->
  tenths (score r) -> tenths (score (checkMaxWords wc c r)).
Proof.
  intros Hw H. unfold checkMaxWords.
  destruct (maxWords c) as [mw|]; [|exact H].
  destruct (Qltb _ _); [|exact H].
  destruct (isWhole_int _ Hw) as [e He].
  apply tenths_penalise; [exact H|].
  apply tenths_min; [apply (tenths_int 25)|].
  apply (tenths_compat (inject_Z (Z.of_nat wc - e) * (12 # 10))).
  - rewrite He. unfold ofNat, Z.sub. rewrite inject_Z_plus, inject_Z_opp.
    apply Qmult_comp; reflexivity.
  - apply tenths_times_int, tenths_const.
Qed.

Lemma checkPrice_tenths out c r : tenths (score r) -> tenths (score (checkPrice out c r)).
Proof.
  intros H. unfold checkPrice. destruct (containsPrice c) as [wants|]; [|exact H].
  destruct wants, (detectPrice out); simpl; try exact H;
    apply tenths_minus; try exact H; [apply (tenths_int 15) | apply (tenths_int 5)].
Qed.

Lemma tenths_per_item (k : Z) (n : nat) : tenths (inject_Z k * ofNat n).
Proof. apply tenths_times_int, tenths_int. Qed.

Lemma checkRequired_tenths out c r :
  tenths (score r) -> tenths (score (checkRequired out c r)).
Proof.
  intros H. unfold checkRequired. destruct (requiredElements c) as [required|]; [|exact H].
  cbv zeta. destruct (containsRequired out required) as [|w ws]; [exact H|].
  apply tenths_penalise; [exact H | apply (tenths_per_item 12)].
Qed.

Lemma checkForbidden_tenths out c r :
  tenths (score r) -> tenths (score (checkForbidden out c r)).
Proof.
  intros H. unfold checkForbidden. destruct (forbiddenWords c) as [forbidden|]; [|exact H].
  cbv zeta. destruct (findForbidden out forbidden) as [|w ws]; [exact H|].
  apply tenths_penalise; [exact H | apply (tenths_per_item 15)].
Qed.

Lemma checkSentiment_tenths out c r :
  tenths (score r) -> tenths (score (checkSentiment out c r)).
Proof.
  intros H. unfold checkSentiment. destruct (sentiment c) as [want|]; [|exact H].
  cbv zeta. destruct (negb _); [|exact H].
  apply tenths_penalise; [exact H | apply (tenths_int 8)].
Qed.

Lemma clampFloor_tenths r : tenths (score r) -> tenths (score (clampFloor r)).
Proof.
  intros H. unfold clampFloor. destruct (Qltb _ _); [apply (tenths_int 0) | exact H].
Qed.

Lemma preMultiplier_tenths output criteria :
  wholeBounds criteria = true -> tenths (score (preMultiplier output criteria)).
Proof.
  unfold wholeBounds. rewrite andb_true_iff. intros [Hwc Hmw].
  unfold preMultiplier. cbv zeta.
  apply clampFloor_tenths, checkSentiment_tenths, checkForbidden_tenths,
    checkRequired_tenths, checkPrice_tenths, checkMaxWords_tenths; [exact Hmw|].
  apply checkWordCount_tenths; [exact Hwc|].
  apply checkLength_tenths. apply (tenths_int 70).
Qed.

Lemma round2_tenths (x : Q) : tenths x -> round2 x == x.
Proof.
  intros [z H]. apply (round2_fixed x (z * 10)). rewrite H.
  unfold Qeq. simpl. lia.
Qed.

(** ** The criteria evaluator *)
Import Policy Samples.

(** C1.  The pre-multiplier score of the criteria evaluator lies in
    [0, 70] for every output and every criteria object.  Consequently, for
    every multiplier m that the program passes to the evaluator, which is
    1.0, 1.5 or 2.0, the returned score lies in [0, 70 m], which is within
    [0, 100 m]; so it does for the multiplier of every round number.
    More generally, for every [m >= 0] the product before rounding lies in
    [0, 70 m] and the returned score lies between 0 and [70 m] rounded to
    two decimals. *)
Theorem criteria_score_bounds (output : jsstring) (criteria : EvaluationCriteria) :
  0 <= score (preMultiplier output criteria) <= 70
  /\ (forall m : Q, m = 1 \/ m = 3 # 2 \/ m = 2 ->
        0 <= score (evaluateOutputAgainstCriteria output criteria m) <= 70 * m
        /\ 70 * m <= 100 * m)
  /\ (forall roundNum : Z,
        0 <= score (evaluateOutputAgainstCriteria output criteria (multiplierOf roundNum))
          <= 70 * multiplierOf roundNum
        /\ 70 * multiplierOf roundNum <= 100 * multiplierOf roundNum)
  /\ (forall m : Q, 0 <= m ->
        0 <= score (preMultiplier output criteria) * m <= 70 * m
        /\ 70 * m <= 100 * m
        /\ 0 <= score (evaluateOutputAgainstCriteria output criteria m) <= round2 (70 * m)).
Proof.
  set (pre := score (preMultiplier output criteria)).
  pose proof (preMultiplier_range output criteria) as Hpre.
  fold pre in Hpre.
  assert (Hm : forall m : Q, 0 <= m ->
            0 <= pre * m <= 70 * m
            /\ 70 * m <= 100 * m
            /\ 0 <= score (evaluateOutputAgainstCriteria output criteria m)
               <= round2 (70 * m)).
  { intros m Hm.
    assert (Hprod : 0 <= pre * m <= 70 * m) by nra.
    split; [exact Hprod|]. split; [nra|].
    unfold evaluateOutputAgainstCriteria. cbv zeta. simpl score. fold pre. split.
    - apply (Qle_trans _ (round2 0)); [vm_compute; discriminate|].
      apply round2_le. lra.
    - apply round2_le. lra. }
  assert (Hpassed : forall m : Q, m = 1 \/ m = 3 # 2 \/ m = 2 ->
            0 <= score (evaluateOutputAgainstCriteria output criteria m) <= 70 * m
            /\ 70 * m <= 100 * m).
  { intros m Hcases.
    assert (Hpos : 0 <= m) by (destruct Hcases as [-> | [-> | ->]]; discriminate).
    destruct (Hm m Hpos) as (_ & Hwithin & Hlo & Hhi).
    split; [|exact Hwithin].
    split; [exact Hlo|].
    apply (Qle_trans _ _ _ Hhi).
    destruct Hcases as [-> | [-> | ->]]; vm_compute; discriminate. }
  split; [exact Hpre|]. split; [exact Hpassed|]. split; [|exact Hm].
  intros roundNum. apply Hpassed.
  unfold multiplierOf.
  destruct (roundNum =? 1)%Z; [tauto|].
  destruct (roundNum =? 2)%Z; [tauto|].
  destruct (roundNum =? 3)%Z; tauto.
Qed.

Lemma criteria_score_bounds_witness :
  0 <= score (evaluateOutputAgainstCriteria scenarioA criteriaA (3 # 2)) <= 70 * (3 # 2)
  /\ 70 * (3 # 2) <= 100 * (3 # 2).
Proof.
  apply (proj1 (proj2 (criteria_score_bounds scenarioA criteriaA)) (3 # 2)).
  right. left. reflexivity.
Defined.

(** C3, as amended.  Scenario A has 14 words, so the evaluator returns
    28 = 70 - 15 (very_brief) - 12 (one missing element) - 15 (one
    forbidden word), with the violations very_brief, missing_elements:₹
    and forbidden_words:amazing, in this order; too_short is not among
    them. *)
Theorem scenarioA_evaluation :
  countWords scenarioA = 14%nat
  /\ score (evaluateOutputAgainstCriteria scenarioA criteriaA 1) == 28
  /\ violations (evaluateOutputAgainstCriteria scenarioA criteriaA 1)
     = [very_brief; missing_elements [[rupee]]; forbidden_words [str "amazing"]].
Proof.
  split; [vm_compute; reflexivity|].
  split; [apply Qeq_bool_iff; vm_compute; reflexivity | vm_compute; reflexivity].
Qed.

(** C3, as stated, fails: the score of scenario A is not 43, and
    very_brief is among the violations. *)
Lemma scenarioA_score_is_not_43 :
  ~ (score (evaluateOutputAgainstCriteria scenarioA criteriaA 1) == 43
     /\ In (forbidden_words [str "amazing"])
           (violations (evaluateOutputAgainstCriteria scenarioA criteriaA 1))
     /\ In (missing_elements [[rupee]])
           (violations (evaluateOutputAgainstCriteria scenarioA criteriaA 1))
     /\ ~ In too_short (violations (evaluateOutputAgainstCriteria scenarioA criteriaA 1))
     /\ ~ In very_brief (violations (evaluateOutputAgainstCriteria scenarioA criteriaA 1))).
Proof.
  intros (Hscore & _).
  apply Qeq_bool_iff in Hscore. vm_compute in Hscore. discriminate.
Qed.

(** C4, as amended.  For every output, every criteria object whose
    wordCount and maxWords bounds (when present) are whole numbers, and
    every multiplier m among 1.0, 1.5 and 2.0, the returned score is the
    score returned for multiplier 1.0, times m, rounded to two decimals.
    The violation list is the same for every multiplier, for every
    criteria object. *)
Theorem multiplier_scaling (output : jsstring) (criteria : EvaluationCriteria) :
  (forall m : Q,
     violations (evaluateOutputAgainstCriteria output criteria m)
     = violations (evaluateOutputAgainstCriteria output criteria 1))
  /\ (forall m : Q,
        wholeBounds criteria = true ->
        m = 1 \/ m = 3 # 2 \/ m = 2 ->
        score (evaluateOutputAgainstCriteria output criteria m)
        == round2 (score (evaluateOutputAgainstCriteria output criteria 1) * m)).
Proof.
  split; [reflexivity|].
  intros m Hwhole _.
  unfold evaluateOutputAgainstCriteria. cbv zeta. simpl score.
  pose proof (round2_tenths _ (preMultiplier_tenths output criteria Hwhole)) as Hfix.
  rewrite (round2_compat (score (preMultiplier output criteria) * 1)
                         (score (preMultiplier output criteria))) by ring.
  rewrite (round2_compat (round2 (score (preMultiplier output criteria)) * m)
                         (score (preMultiplier output criteria) * m)).
  - reflexivity.
  - rewrite Hfix. reflexivity.
Qed.

Lemma multiplier_scaling_witness :
  score (evaluateOutputAgainstCriteria scenarioA criteriaA (3 # 2))
  == round2 (score (evaluateOutputAgainstCriteria scenarioA criteriaA 1) * (3 # 2)).
Proof.
  apply (proj2 (multiplier_scaling scenarioA criteriaA) (3 # 2)).
  - vm_compute. reflexivity.
  - right. left. reflexivity.
Defined.

(** C4, as stated, fails for a criteria object whose wordCount is not a
    whole number: with wordCount 0.003 and an output of no words the
    pre-multiplier score is 39.9955, so multiplier 1.5 returns 59.99 while
    the score for multiplier 1.0, which is 40, scales to 60. *)
Lemma multiplier_scaling_fails_for_fractional_wordCount :
  score (preMultiplier (str "!") fractionalCount) == 399955 # 10000
  /\ score (evaluateOutputAgainstCriteria (str "!") fractionalCount (3 # 2)) == 5999 # 100
  /\ round2 (score (evaluateOutputAgainstCriteria (str "!") fractionalCount 1) * (3 # 2))
     == 60
  /\ ~ (score (evaluateOutputAgainstCriteria (str "!") fractionalCount (3 # 2))
        == round2 (score (evaluateOutputAgainstCriteria (str "!") fractionalCount 1)
                   * (3 # 2))).
Proof.
  repeat split; try (apply Qeq_bool_iff; vm_compute; reflexivity).
  intros H. apply Qeq_bool_iff in H. vm_compute in H. discriminate.
Qed.

(** ** The reverse-engineering evaluator *)

(** C9.  The score of the reverse-engineering evaluator lies in [0, 110],
    and 110, above the base of 100, is reached by a response with a
    reconstruction, a reasoning, an analysis and a context marker: the
    analysis bonus of 10 is added with no ceiling clamp. *)
Theorem reverse_engineering_range :
  (forall userResponse : jsstring,
      0 <= score (evaluateReverseEngineering userResponse) <= 110)
  /\ score (evaluateReverseEngineering (str "prompt because style recipe")) == 110
  /\ violations (evaluateReverseEngineering (str "prompt because style recipe")) = []
  /\ 100 < score (evaluateReverseEngineering (str "prompt because style recipe")).
Proof.
  split.
  - intros userResponse. unfold evaluateReverseEngineering. cbv zeta.
    repeat match goal with
           | |- context [includesAny ?t ?ws] => destruct (includesAny t ws)
           end;
      split; apply Qle_bool_iff; vm_compute; reflexivity.
  - split; [apply Qeq_bool_iff; vm_compute; reflexivity|].
    split; [vm_compute; reflexivity|].
    apply Qltb_true. vm_compute. reflexivity.
Qed.

(** ** The prompt-quality heuristic on blank prompts *)

(** A pattern every match of which starts with a code unit that is not
    white space. *)
Fixpoint startsVisible (ignoreCase : bool) (r : regex) : bool :=
  match r with
  | Chr c => negb (isSpace (canonicalize ignoreCase c))
  | Cat r1 _ => startsVisible ignoreCase r1
  | Alt r1 r2 => startsVisible ignoreCase r1 && startsVisible ignoreCase r2
  | _ => false
  end.

Lemma space_is_not_lower (c : N) : isSpace c = true -> between 97 122 c = false.
Proof.
  unfold isSpace, between. intros H.
  rewrite !orb_true_iff, !andb_true_iff, !N.leb_le, !N.eqb_eq in H.
  apply andb_false_iff.
  destruct (N.leb_spec 97 c); [right | left; reflexivity].
  apply N.leb_gt. lia.
Qed.

Lemma canonicalize_space (ignoreCase : bool) (c : N) :
  isSpace c = true -> canonicalize ignoreCase c = c.
Proof.
  intros H. unfold canonicalize. rewrite (space_is_not_lower c H).
  rewrite andb_false_r. reflexivity.
Qed.

Lemma run_on_blank (ignoreCase : bool) (r : regex) (st : mstate) :
  startsVisible ignoreCase r = true ->
  forallb isSpace (snd st) = true ->
  run ignoreCase r st = [].
Proof.
  revert st. induction r as [ | c | | | r1 IH1 r2 IH2 | r1 IH1 r2 IH2 | | ];
    intros st Hvis Hblank; simpl in Hvis; try discriminate.
  - simpl. destruct (snd st) as [|x t]; [reflexivity|].
    simpl in Hblank. apply andb_true_iff in Hblank as [Hx _].
    rewrite (canonicalize_space ignoreCase x Hx).
    destruct (N.eqb_spec x (canonicalize ignoreCase c)) as [E|]; [|reflexivity].
    rewrite <- E, Hx in Hvis. discriminate.
  - simpl. rewrite (IH1 st Hvis Hblank). reflexivity.
  - apply andb_true_iff in Hvis as [H1 H2].
    simpl. rewrite (IH1 st H1 Hblank), (IH2 st H2 Hblank). reflexivity.
Qed.

Lemma test_on_blank (ignoreCase : bool) (r : regex) (t : jsstring) :
  startsVisible ignoreCase r = true ->
  forallb isSpace t = true ->
  test ignoreCase r t = false.
Proof.
  intros Hvis. unfold test. generalize (@None N).
  induction t as [|c t IH]; intros prev Hblank; simpl; unfold matchHere.
  - rewrite (run_on_blank ignoreCase r (prev, []) Hvis Hblank). reflexivity.
  - rewrite (run_on_blank ignoreCase r (prev, c :: t) Hvis Hblank).
    apply IH. simpl in Hblank. apply andb_true_iff in Hblank. tauto.
Qed.

Lemma bonusIf_on_blank (r : regex) (prompt : jsstring) (bonus score : Z) :
  startsVisible true r = true ->
  forallb isSpace prompt = true ->
  bonusIf r prompt bonus score = score.
Proof.
  intros Hvis Hblank. unfold bonusIf.
  rewrite (test_on_blank true r prompt Hvis Hblank). reflexivity.
Qed.

Lemma dropWhile_blank (s : jsstring) : forallb isSpace s = true -> dropWhile isSpace s = [].
Proof.
  induction s as [|c s IH]; simpl; [reflexivity|].
  intros H. apply andb_true_iff in H as [Hc Hs]. rewrite Hc. exact (IH Hs).
Qed.

Lemma promptWords_blank (prompt : jsstring) :
  forallb isSpace prompt = true -> promptWords prompt = 1%Z.
Proof.
  intros H. unfold promptWords, trim. rewrite (dropWhile_blank prompt H). reflexivity.
Qed.

Lemma splitSpacesFrom_nonempty (inSep : bool) (cur s : jsstring) :
  (1 <= length (splitSpacesFrom inSep cur s))%nat.
Proof.
  revert inSep cur. induction s as [|c s IH]; intros inSep cur; simpl; [lia|].
  destruct (isSpace c); [destruct inSep|]; simpl; try apply IH. lia.
Qed.

(** C10.  The word count of the prompt-quality heuristic is never 0, while
    [countWords] of the empty text is 0.  A prompt that is empty or made
    of white space only counts as one word and matches none of the keyword
    patterns, so that for every round number its quality is
    60 - 30 = 30, which is above the floor of 20. *)
Theorem blank_prompt_quality (prompt : jsstring) (roundNum : Z) :
  forallb isSpace prompt = true ->
  promptWords prompt = 1%Z
  /\ evaluatePromptQuality prompt roundNum = 30%Z
  /\ evaluatePromptQuality [] roundNum = 30%Z
  /\ (20 < 30)%Z
  /\ (forall p : jsstring, (1 <= promptWords p)%Z)
  /\ countWords [] = 0%nat.
Proof.
  intros Hblank.
  assert (Hq : forall p, forallb isSpace p = true -> evaluatePromptQuality p roundNum = 30%Z).
  { intros p Hp. unfold evaluatePromptQuality. cbv zeta.
    rewrite (promptWords_blank p Hp).
    rewrite !(fun r H b s => bonusIf_on_blank r p b s H Hp) by reflexivity.
    destruct (roundNum =? 1)%Z, (roundNum =? 3)%Z; reflexivity. }
  split; [exact (promptWords_blank prompt Hblank)|].
  split; [exact (Hq prompt Hblank)|].
  split; [exact (Hq [] eq_refl)|].
  split; [lia|].
  split; [|reflexivity].
  intros p. unfold promptWords, splitSpaces.
  pose proof (splitSpacesFrom_nonempty false [] (trim p)). lia.
Qed.

Lemma blank_prompt_quality_witness :
  promptWords (str "  ") = 1%Z
  /\ evaluatePromptQuality (str "  ") 1 = 30%Z
  /\ evaluatePromptQuality [] 1 = 30%Z
  /\ (20 < 30)%Z
  /\ (forall p : jsstring, (1 <= promptWords p)%Z)
  /\ countWords [] = 0%nat.
Proof.
  apply (blank_prompt_quality (str "  ") 1). reflexivity.
Defined.

End EvaluatorFacts.

(** * Properties of the scoring endpoints *)
Module PolicyFacts.
Import Js TextMetrics Evaluator Policy Samples.
Local Open Scope Q_scope.

(** C6.  In round 2 the result is that of the reverse-engineering
    evaluator on the prompt, its score multiplied by 1.5 and rounded to
    two decimals; the generated output and the constraints play no part,
    in the evaluation result as in the response and the team totals of
    the submit-prompt endpoint. *)
Theorem round2_ignores_generated_output (st : Store) (body : SubmitPromptBody)
        (prompt out1 out2 : jsstring) (c1 c2 : Constraints) :
  round body = Some 2%Z ->
  score (scoreSubmission prompt out1 2 c1)
    = round2 (score (evaluateReverseEngineering prompt) * (3 # 2))
  /\ violations (scoreSubmission prompt out1 2 c1)
     = violations (evaluateReverseEngineering prompt)
  /\ scoreSubmission prompt out1 2 c1 = scoreSubmission prompt out2 2 c2
  /\ snd (submitPrompt st body out1) = snd (submitPrompt st body out2)
  /\ teams (fst (submitPrompt st body out1)) = teams (fst (submitPrompt st body out2))
  /\ map sub_score (submissions (fst (submitPrompt st body out1)))
     = map sub_score (submissions (fst (submitPrompt st body out2)))
  /\ map sub_violations (submissions (fst (submitPrompt st body out1)))
     = map sub_violations (submissions (fst (submitPrompt st body out2))).
Proof.
  intros Hround.
  split; [reflexivity|]. split; [reflexivity|]. split; [reflexivity|].
  unfold submitPrompt. rewrite Hround.
  destruct (truthy (teamId body)) as [tid|]; [|repeat split; reflexivity].
  destruct (truthy (Policy.prompt body)) as [p|]; [|repeat split; reflexivity].
  destruct (teams st !! tid) as [old|]; [|repeat split; reflexivity].
  cbv zeta.
  change (scoreSubmission p out1 2 _) with (scoreSubmission p out2 2 noConstraints).
  change (scoreSubmission p out2 2 _) with (scoreSubmission p out2 2 noConstraints).
  destruct (Qle_bool _ _); simpl; rewrite !map_app; repeat split; reflexivity.
Qed.

Lemma round2_ignores_generated_output_witness :
  snd (submitPrompt oneTeam round2Body scenarioA)
  = snd (submitPrompt oneTeam round2Body twentyWords).
Proof.
  apply (round2_ignores_generated_output oneTeam round2Body [] scenarioA twentyWords
           noConstraints noConstraints).
  reflexivity.
Defined.




End PolicyFacts.

(** * Properties of the progress computation *)
Module ProgressFacts.
Import Evaluator Progress Samples EvaluatorFacts.
Local Open Scope Q_scope.

(** ** The running maximum *)

Lemma Qmax_cases (x y : Q) : Qmax x y = x \/ Qmax x y = y.
Proof.
  unfold Qmax, GenericMinMax.gmax. destruct (x ?= y); tauto.
Qed.

Lemma fold_Qmax_init (l : list Q) (init : Q) : init <= fold_left Qmax l init.
Proof.
  revert init. induction l as [|x l IH]; intros init; simpl; [lra|].
  apply (Qle_trans _ (Qmax init x)); [apply Q.le_max_l | apply IH].
Qed.

Lemma fold_Qmax_upper (l : list Q) (init x : Q) :
  In x l -> x <= fold_left Qmax l init.
Proof.
  revert init. induction l as [|y l IH]; intros init Hin; simpl; [destruct Hin|].
  destruct Hin as [-> | Hin].
  - apply (Qle_trans _ (Qmax init x)); [apply Q.le_max_r | apply fold_Qmax_init].
  - apply IH. exact Hin.
Qed.

Lemma fold_Qmax_cases (l : list Q) (init : Q) :
  fold_left Qmax l init = init \/ In (fold_left Qmax l init) l.
Proof.
  revert init. induction l as [|y l IH]; intros init; simpl; [tauto|].
  destruct (IH (Qmax init y)) as [E | Hin]; [|tauto].
  rewrite E. destruct (Qmax_cases init y) as [-> | ->]; tauto.
Qed.

(** The best score clears the threshold exactly when the round has a
    maximum score and that maximum is at least 60. *)
Lemma best_clears_threshold (h : list HistoryEntry) (r : Z) :
  Qle_bool PASSING_THRESHOLD (maxScoreFrom0 (ofRound h r)) = true
  <-> exists m : Q, isMaximumOf m (scoresOf h r) /\ 60 <= m.
Proof.
  unfold maxScoreFrom0, scoresOf, PASSING_THRESHOLD. rewrite Qle_bool_iff.
  set (l := map h_score (ofRound h r)). split.
  - intros Hbest. exists (fold_left Qmax l 0). split; [|exact Hbest].
    split.
    + destruct (fold_Qmax_cases l 0) as [E | Hin]; [|exact Hin].
      rewrite E in Hbest. exfalso. revert Hbest. apply Qlt_not_le. reflexivity.
    + intros x Hx. apply fold_Qmax_upper. exact Hx.
  - intros (m & [Hin _] & Hm).
    apply (Qle_trans _ m); [exact Hm | apply fold_Qmax_upper; exact Hin].
Qed.

(** C5.  Round 1 is always unlocked.  Round 2 (round 3) is unlocked
    exactly when the history's entries for round 1 (round 2) have a
    maximum score and that maximum is at least 60; it is locked out when
    there is no such entry or the best one is below 60.  The flag of
    round r depends on the entries of round r - 1 only. *)
Theorem unlock_rule (h : list HistoryEntry) :
  map unlocked (roundProgress h)
  = [true; unlocked (levelOf h 2); unlocked (levelOf h 3)]
  /\ (unlocked (levelOf h 2) = true
      <-> exists m : Q, isMaximumOf m (scoresOf h 1) /\ 60 <= m)
  /\ (unlocked (levelOf h 3) = true
      <-> exists m : Q, isMaximumOf m (scoresOf h 2) /\ 60 <= m)
  /\ (scoresOf h 1 = [] -> unlocked (levelOf h 2) = false)
  /\ (scoresOf h 2 = [] -> unlocked (levelOf h 3) = false)
  /\ (forall h' : list HistoryEntry,
        (ofRound h 1 = ofRound h' 1 -> unlocked (levelOf h 2) = unlocked (levelOf h' 2))
        /\ (ofRound h 2 = ofRound h' 2 ->
            unlocked (levelOf h 3) = unlocked (levelOf h' 3))).
Proof.
  assert (H2 : unlocked (levelOf h 2) = true
               <-> exists m : Q, isMaximumOf m (scoresOf h 1) /\ 60 <= m)
    by (apply (best_clears_threshold h 1)).
  assert (H3 : unlocked (levelOf h 3) = true
               <-> exists m : Q, isMaximumOf m (scoresOf h 2) /\ 60 <= m)
    by (apply (best_clears_threshold h 2)).
  split; [reflexivity|]. split; [exact H2|]. split; [exact H3|].
  assert (Hnone : forall b l, (b = true <-> exists m : Q, isMaximumOf m l /\ 60 <= m) ->
                              l = [] -> b = false).
  { intros b l Hiff ->. destruct b; [|reflexivity].
    destruct (proj1 Hiff eq_refl) as (m & [[] _] & _). }
  split; [apply Hnone; exact H2|]. split; [apply Hnone; exact H3|].
  intros h'. split; intros E.
  - change (Qle_bool PASSING_THRESHOLD (maxScoreFrom0 (ofRound h 1))
            = Qle_bool PASSING_THRESHOLD (maxScoreFrom0 (ofRound h' 1))).
    rewrite E. reflexivity.
  - change (Qle_bool PASSING_THRESHOLD (maxScoreFrom0 (ofRound h 2))
            = Qle_bool PASSING_THRESHOLD (maxScoreFrom0 (ofRound h' 2))).
    rewrite E. reflexivity.
Qed.

Lemma unlock_rule_witness :
  unlocked (levelOf [entry 1 75] 2) = true /\ unlocked (levelOf [entry 1 75] 3) = false.
Proof.
  destruct (unlock_rule [entry 1 75]) as (_ & Hround2 & _ & _ & Hround3 & _).
  split.
  - apply Hround2. exists 75. repeat split.
    + left. reflexivity.
    + intros x [<- | []]. discriminate.
    + discriminate.
  - apply Hround3. reflexivity.
Defined.

(** Round 2's [accessible] is computed from [locked] before [locked] gets
    its round-2 value, so it is the [unlocked] flag of round 2. *)
Lemma level2_accessible_is_unlocked (h : list HistoryEntry) :
  accessible (levelOf h 2) = unlocked (levelOf h 2).
Proof. simpl. apply andb_true_r. Qed.

(** C7 says that round 2 stops being accessible once round 3 is unlocked.
    The code does otherwise: with 75 points in round 1 and 80 in round 2,
    round 3 is unlocked and round 2 is locked, and round 2 is still
    accessible. *)
Theorem level2_accessible_after_round3_unlocks :
  map unlocked (roundProgress [entry 1 75; entry 2 80]) = [true; true; true]
  /\ map locked (roundProgress [entry 1 75; entry 2 80]) = [true; true; false]
  /\ map accessible (roundProgress [entry 1 75; entry 2 80]) = [true; true; true].
Proof. vm_compute. repeat split; reflexivity. Qed.

(** The fields of a level that do not depend on the branch on the round. *)
Lemma levelOf_fields (h : list HistoryEntry) (r : Z) :
  attempts (levelOf h r) = length (ofRound h r)
  /\ bestScore (levelOf h r)
     = (if Qltb 0 (maxScoreFrom0 (ofRound h r))
        then Some (maxScoreFrom0 (ofRound h r)) else None)
  /\ unlocked (levelOf h r) = isPreviousRoundCompleted h r
  /\ completed (levelOf h r) = Qle_bool PASSING_THRESHOLD (maxScoreFrom0 (ofRound h r)).
Proof.
  unfold levelOf. cbv zeta.
  destruct (r =? 1)%Z; [repeat split|].
  destruct (r =? 2)%Z; [repeat split|].
  destruct (r =? 3)%Z; repeat split.
Qed.

(** C8, as amended.  In the snapshot of a round, attempts is the number of
    the history's entries for the round.  bestScore is null exactly when
    no entry of the round has a positive score, which includes the round
    without entries; otherwise it is the maximum score of the round's
    entries, which is then positive. *)
Theorem best_score_rule (h : list HistoryEntry) (r : Z) :
  attempts (levelOf h r) = length (ofRound h r)
  /\ (bestScore (levelOf h r) = None <-> forall x : Q, In x (scoresOf h r) -> x <= 0)
  /\ (scoresOf h r = [] -> bestScore (levelOf h r) = None)
  /\ (forall m : Q, bestScore (levelOf h r) = Some m ->
        0 < m /\ isMaximumOf m (scoresOf h r)).
Proof.
  destruct (levelOf_fields h r) as (Hattempts & Hbest & _).
  assert (Hnone : bestScore (levelOf h r) = None
                  <-> forall x : Q, In x (scoresOf h r) -> x <= 0).
  { rewrite Hbest. unfold maxScoreFrom0, scoresOf.
    set (l := map h_score (ofRound h r)).
    destruct (Qltb 0 (fold_left Qmax l 0)) eqn:E.
    - apply Qltb_true in E. split; [discriminate|]. intros Hall. exfalso.
      destruct (fold_Qmax_cases l 0) as [E0 | Hin].
      + rewrite E0 in E. revert E. apply Qlt_irrefl.
      + apply (Qlt_not_le _ _ E). apply Hall. exact Hin.
    - apply Qltb_false in E. split; [|reflexivity]. intros _ x Hx.
      apply (Qle_trans _ (fold_left Qmax l 0)); [apply fold_Qmax_upper; exact Hx | exact E]. }
  split; [exact Hattempts|]. split; [exact Hnone|].
  split; [intros E; apply Hnone; rewrite E; intros x []|].
  intros m. rewrite Hbest. unfold maxScoreFrom0, scoresOf.
  set (l := map h_score (ofRound h r)).
  destruct (Qltb 0 (fold_left Qmax l 0)) eqn:E; [|discriminate].
  apply Qltb_true in E. intros [= <-]. split; [exact E|]. split.
  - destruct (fold_Qmax_cases l 0) as [E0 | Hin]; [|exact Hin].
    rewrite E0 in E. exfalso. revert E. apply Qlt_irrefl.
  - intros x Hx. apply fold_Qmax_upper. exact Hx.
Qed.

Lemma best_score_rule_witness :
  bestScore (levelOf [entry 1 0; entry 2 50] 1) = None
  /\ 0 < 75 /\ isMaximumOf 75 (scoresOf [entry 1 40; entry 1 75] 1).
Proof.
  split.
  - apply (proj1 (proj2 (best_score_rule [entry 1 0; entry 2 50] 1))).
    intros x [<- | []]. discriminate.
  - apply (proj2 (proj2 (proj2 (best_score_rule [entry 1 40; entry 1 75] 1)))).
    reflexivity.
Defined.

(** C8, as stated, fails: a round whose only submission scored 0 has one
    attempt and a null bestScore, not a bestScore of 0. *)
Lemma zero_best_score_is_null :
  attempts (levelOf [entry 1 0] 1) = 1%nat
  /\ bestScore (levelOf [entry 1 0] 1) = None
  /\ ~ (bestScore (levelOf [entry 1 0] 1) = None <-> ofRound [entry 1 0] 1 = []).
Proof.
  split; [reflexivity|]. split; [reflexivity|].
  intros [Hempty _]. discriminate (Hempty eq_refl).
Qed.

End ProgressFacts.

(** * Further properties of the evaluators *)
Module EvaluatorLaws.
Import Js Re TextMetrics Evaluator Policy Samples EvaluatorFacts.
Local Open Scope Q_scope.

(** ** The range of the prompt-quality heuristic *)

Lemma promptQuality_bounds (prompt : jsstring) (roundNum : Z) :
  (30 <= evaluatePromptQuality prompt roundNum <= 100)%Z.
Proof.
  unfold evaluatePromptQuality, bonusIf. cbv zeta.
  repeat match goal with
         | |- context [if ?b then _ else _] => destruct b
         end; lia.
Qed.

(** X1.  The prompt-quality score lies in [30, 100] for every prompt and
    every round number: the length band takes off at most 30 and every
    keyword test only adds, so the floor of 20 in the final clamp is never
    the result. *)
Theorem prompt_quality_range (prompt : jsstring) (roundNum : Z) :
  (30 <= evaluatePromptQuality prompt roundNum <= 100)%Z.
Proof. apply promptQuality_bounds. Qed.

(** ** Violations and penalties go together *)

Definition clean (r : EvaluationResult) : Prop := violations r = [] /\ score r == 70.

Definition docked (r : EvaluationResult) : Prop := violations r <> [] /\ score r <= 69.

Lemma penalise_docked (v : Violation) (p : Q) (r : EvaluationResult) :
  1 <= p -> clean r \/ docked r -> docked (penalise v p r).
Proof.
  intros Hp Hr. split.
  - simpl. intros E. apply app_eq_nil in E as [_ E]. discriminate.
  - simpl. destruct Hr as [[_ E] | [_ Hle]]; lra.
Qed.

Lemma capped_ge1 (x : Q) : 1 <= x -> 1 <= Qmin 25 x.
Proof. intros H. apply Q.min_glb; [discriminate | exact H]. Qed.

Lemma ofNat_succ_ge1 (n : nat) : 1 <= ofNat (S n).
Proof.
  unfold ofNat. change 1 with (inject_Z 1). rewrite <- Zle_Qle. lia.
Qed.

(** Two whole numbers that differ are at least 1 apart. *)
Lemma whole_gap (a b : Z) : ~ inject_Z a == inject_Z b -> 1 <= Qabs (inject_Z a - inject_Z b).
Proof.
  intros Hne.
  assert (Hab : a <> b) by (intros ->; apply Hne; reflexivity).
  unfold Qminus. rewrite <- inject_Z_opp, <- inject_Z_plus.
  change (Qabs (inject_Z (a + - b))) with (inject_Z (Z.abs (a + - b))).
  change 1 with (inject_Z 1). rewrite <- Zle_Qle. lia.
Qed.

Lemma checkLength_marks wc r :
  clean r \/ docked r -> clean (checkLength wc r) \/ docked (checkLength wc r).
Proof.
  intros H. unfold checkLength.
  destruct (wc <? 10)%nat; [right; apply penalise_docked; [discriminate | exact H]|].
  destruct (wc <? 20)%nat; [right; apply penalise_docked; [discriminate | exact H]|].
  exact H.
Qed.

Lemma checkWordCount_marks wc c r :
  isWhole (wordCount c) = true ->
  clean r \/ docked r -> clean (checkWordCount wc c r) \/ docked (checkWordCount wc c r).
Proof.
  intros Hw H. unfold checkWordCount. destruct (wordCount c) as [expected|]; [|exact H].
  destruct (Qeq_bool (ofNat wc) expected) eqn:E; simpl negb; cbv iota; [exact H|].
  right. apply penalise_docked; [|exact H]. apply capped_ge1.
  apply Qeq_bool_neq in E.
  destruct (isWhole_int _ Hw) as [e He].
  assert (Hgap : 1 <= Qabs (ofNat wc - expected)).
  { rewrite He. apply whole_gap. intros E0. apply E. rewrite He. exact E0. }
  nra.
Qed.

Lemma checkMaxWords_marks wc c r :
  isWhole (maxWords c) = true ->
  clean r \/ docked r -> clean (checkMaxWords wc c r) \/ docked (checkMaxWords wc c r).
Proof.
  intros Hw H. unfold checkMaxWords. destruct (maxWords c) as [mw|]; [|exact H].
  destruct (Qltb mw (ofNat wc)) eqn:E; [|exact H].
  apply Qltb_true in E. right. apply penalise_docked; [|exact H].
  apply capped_ge1.
  destruct (isWhole_int _ Hw) as [e He].
  assert (Hgap : 1 <= ofNat wc - mw).
  { rewrite He in E |- *. unfold ofNat in E |- *.
    rewrite <- Zlt_Qlt in E.
    unfold Qminus. rewrite <- inject_Z_opp, <- inject_Z_plus.
    change 1 with (inject_Z 1). rewrite <- Zle_Qle. lia. }
  nra.
Qed.

Lemma checkPrice_marks out c r :
  clean r \/ docked r -> clean (checkPrice out c r) \/ docked (checkPrice out c r).
Proof.
  intros H. unfold checkPrice. destruct (containsPrice c) as [wants|]; [|exact H].
  destruct wants, (detectPrice out); simpl andb; cbv iota zeta; try exact H;
    right; apply penalise_docked; try exact H; discriminate.
Qed.

Lemma checkRequired_marks out c r :
  clean r \/ docked r -> clean (checkRequired out c r) \/ docked (checkRequired out c r).
Proof.
  intros H. unfold checkRequired. destruct (requiredElements c) as [required|]; [|exact H].
  cbv zeta. destruct (containsRequired out required) as [|w ws]; [exact H|].
  right. apply penalise_docked; [|exact H].
  pose proof (ofNat_succ_ge1 (length ws)). simpl length. nra.
Qed.

Lemma checkForbidden_marks out c r :
  clean r \/ docked r -> clean (checkForbidden out c r) \/ docked (checkForbidden out c r).
Proof.
  intros H. unfold checkForbidden. destruct (forbiddenWords c) as [forbidden|]; [|exact H].
  cbv zeta. destruct (findForbidden out forbidden) as [|w ws]; [exact H|].
  right. apply penalise_docked; [|exact H].
  pose proof (ofNat_succ_ge1 (length ws)). simpl length. nra.
Qed.

Lemma checkSentiment_marks out c r :
  clean r \/ docked r -> clean (checkSentiment out c r) \/ docked (checkSentiment out c r).
Proof.
  intros H. unfold checkSentiment. destruct (sentiment c) as [want|]; [|exact H].
  cbv zeta. destruct (negb _); [|exact H].
  right. apply penalise_docked; [discriminate | exact H].
Qed.

Lemma clampFloor_marks r : clean r \/ docked r -> clean (clampFloor r) \/ docked (clampFloor r).
Proof.
  intros H. unfold clampFloor. destruct (Qltb (score r) 0) eqn:E; [|exact H].
  apply Qltb_true in E. right. destruct H as [[_ E70] | [Hv _]]; [lra|].
  split; [exact Hv | discriminate].
Qed.

Lemma preMultiplier_marks (output : jsstring) (criteria : EvaluationCriteria) :
  wholeBounds criteria = true ->
  clean (preMultiplier output criteria) \/ docked (preMultiplier output criteria).
Proof.
  unfold wholeBounds. rewrite andb_true_iff. intros [Hwc Hmw].
  unfold preMultiplier. cbv zeta.
  apply clampFloor_marks, checkSentiment_marks, checkForbidden_marks, checkRequired_marks,
    checkPrice_marks, checkMaxWords_marks; [exact Hmw|].
  apply checkWordCount_marks; [exact Hwc|].
  apply checkLength_marks.
  left. split; reflexivity.
Qed.

(** X2.  For a criteria object whose wordCount and maxWords bounds (when
    present) are whole numbers, the criteria evaluator gives the full base
    score of 70 exactly when it reports no violation, before the
    multiplier and in the score returned for multiplier 1: every violation
    comes with a penalty of at least one point, so a result with a
    violation scores 69 or less. *)
Theorem full_score_iff_no_violation (output : jsstring) (criteria : EvaluationCriteria) :
  wholeBounds criteria = true ->
  (score (preMultiplier output criteria) == 70
   <-> violations (preMultiplier output criteria) = [])
  /\ (violations (preMultiplier output criteria) <> [] ->
      score (preMultiplier output criteria) <= 69)
  /\ (score (evaluateOutputAgainstCriteria output criteria 1) == 70
      <-> violations (evaluateOutputAgainstCriteria output criteria 1) = [])
  /\ (violations (evaluateOutputAgainstCriteria output criteria 1) <> [] ->
      score (evaluateOutputAgainstCriteria output criteria 1) <= 69).
Proof.
  intros Hwhole.
  assert (Hpre : score (preMultiplier output criteria) == 70
                 <-> violations (preMultiplier output criteria) = []).
  { destruct (preMultiplier_marks output criteria Hwhole) as [[Hv Hs] | [Hv Hs]].
    - tauto.
    - split; [intros E; lra | intros E; contradiction]. }
  assert (Hgap : violations (preMultiplier output criteria) <> [] ->
                 score (preMultiplier output criteria) <= 69).
  { destruct (preMultiplier_marks output criteria Hwhole) as [[Hv Hs] | [Hv Hs]].
    - intros Hne. contradiction.
    - intros _. exact Hs. }
  split; [exact Hpre|]. split; [exact Hgap|].
  unfold evaluateOutputAgainstCriteria. cbv zeta. simpl.
  rewrite (round2_compat (score (preMultiplier output criteria) * 1)
                         (score (preMultiplier output criteria))) by ring.
  rewrite (round2_tenths _ (preMultiplier_tenths output criteria Hwhole)).
  split; [exact Hpre | exact Hgap].
Qed.

Lemma full_score_iff_no_violation_witness :
  (score (evaluateOutputAgainstCriteria scenarioA criteriaA 1) == 70
   <-> violations (evaluateOutputAgainstCriteria scenarioA criteriaA 1) = [])
  /\ score (evaluateOutputAgainstCriteria scenarioA criteriaA 1) <= 69.
Proof.
  assert (Hwhole : wholeBounds criteriaA = true) by (vm_compute; reflexivity).
  destruct (full_score_iff_no_violation scenarioA criteriaA Hwhole)
    as (_ & _ & Hiff & Hgap).
  split; [exact Hiff|].
  apply Hgap. vm_compute. discriminate.
Defined.

(** ** A further criterion never raises the score *)

(** [c'] has every criterion of [c], and possibly more. *)
Definition extendsCriteria (c c' : EvaluationCriteria) : Prop :=
  (wordCount c = None \/ wordCount c = wordCount c')
  /\ (maxWords c = None \/ maxWords c = maxWords c')
  /\ (containsPrice c = None \/ containsPrice c = containsPrice c')
  /\ (requiredElements c = None \/ requiredElements c = requiredElements c')
  /\ (forbiddenWords c = None \/ forbiddenWords c = forbiddenWords c')
  /\ (sentiment c = None \/ sentiment c = sentiment c').

Lemma checkWordCount_mono wc c c' r r' :
  wordCount c = None \/ wordCount c = wordCount c' ->
  score r' <= score r ->
  score (checkWordCount wc c' r') <= score (checkWordCount wc c r).
Proof.
  intros [E | E] H.
  - pose proof (checkWordCount_le wc c' r'). unfold checkWordCount at 2. rewrite E. lra.
  - unfold checkWordCount. rewrite E. destruct (wordCount c') as [expected|]; [|exact H].
    destruct (negb _); simpl; lra.
Qed.

Lemma checkMaxWords_mono wc c c' r r' :
  maxWords c = None \/ maxWords c = maxWords c' ->
  score r' <= score r ->
  score (checkMaxWords wc c' r') <= score (checkMaxWords wc c r).
Proof.
  intros [E | E] H.
  - pose proof (checkMaxWords_le wc c' r'). unfold checkMaxWords at 2. rewrite E. lra.
  - unfold checkMaxWords. rewrite E. destruct (maxWords c') as [mw|]; [|exact H].
    destruct (Qltb _ _); simpl; lra.
Qed.

Lemma checkPrice_mono out c c' r r' :
  containsPrice c = None \/ containsPrice c = containsPrice c' ->
  score r' <= score r ->
  score (checkPrice out c' r') <= score (checkPrice out c r).
Proof.
  intros [E | E] H.
  - pose proof (checkPrice_le out c' r'). unfold checkPrice at 2. rewrite E. lra.
  - unfold checkPrice. rewrite E. destruct (containsPrice c') as [wants|]; [|exact H].
    destruct wants, (detectPrice out); simpl; lra.
Qed.

Lemma checkRequired_mono out c c' r r' :
  requiredElements c = None \/ requiredElements c = requiredElements c' ->
  score r' <= score r ->
  score (checkRequired out c' r') <= score (checkRequired out c r).
Proof.
  intros [E | E] H.
  - pose proof (checkRequired_le out c' r'). unfold checkRequired at 2. rewrite E. lra.
  - unfold checkRequired. rewrite E. destruct (requiredElements c') as [required|]; [|exact H].
    cbv zeta. destruct (containsRequired out required); simpl; lra.
Qed.

Lemma checkForbidden_mono out c c' r r' :
  forbiddenWords c = None \/ forbiddenWords c = forbiddenWords c' ->
  score r' <= score r ->
  score (checkForbidden out c' r') <= score (checkForbidden out c r).
Proof.
  intros [E | E] H.
  - pose proof (checkForbidden_le out c' r'). unfold checkForbidden at 2. rewrite E. lra.
  - unfold checkForbidden. rewrite E. destruct (forbiddenWords c') as [forbidden|]; [|exact H].
    cbv zeta. destruct (findForbidden out forbidden); simpl; lra.
Qed.

Lemma checkSentiment_mono out c c' r r' :
  sentiment c = None \/ sentiment c = sentiment c' ->
  score r' <= score r ->
  score (checkSentiment out c' r') <= score (checkSentiment out c r).
Proof.
  intros [E | E] H.
  - pose proof (checkSentiment_le out c' r'). unfold checkSentiment at 2. rewrite E. lra.
  - unfold checkSentiment. rewrite E. destruct (sentiment c') as [want|]; [|exact H].
    cbv zeta. destruct (negb _); simpl; lra.
Qed.

Lemma clampFloor_mono r r' :
  score r' <= score r -> score (clampFloor r') <= score (clampFloor r).
Proof.
  intros H. unfold clampFloor.
  destruct (Qltb (score r') 0) eqn:E'; destruct (Qltb (score r) 0) eqn:E; simpl;
    try apply Qltb_true in E'; try apply Qltb_true in E;
    try apply Qltb_false in E'; try apply Qltb_false in E; lra.
Qed.

Lemma evaluate_mono (output : jsstring) (c c' : EvaluationCriteria) (m : Q) :
  extendsCriteria c c' ->
  0 <= m ->
  score (preMultiplier output c') <= score (preMultiplier output c)
  /\ score (evaluateOutputAgainstCriteria output c' m)
     <= score (evaluateOutputAgainstCriteria output c m).
Proof.
  intros (Hwc & Hmw & Hprice & Hreq & Hforb & Hsent) Hm.
  assert (Hpre : score (preMultiplier output c') <= score (preMultiplier output c)).
  { unfold preMultiplier. cbv zeta.
    apply clampFloor_mono, checkSentiment_mono; [exact Hsent|].
    apply checkForbidden_mono; [exact Hforb|].
    apply checkRequired_mono; [exact Hreq|].
    apply checkPrice_mono; [exact Hprice|].
    apply checkMaxWords_mono; [exact Hmw|].
    apply checkWordCount_mono; [exact Hwc|]. lra. }
  split; [exact Hpre|].
  unfold evaluateOutputAgainstCriteria. cbv zeta. simpl. apply round2_le. nra.
Qed.

(** X3.  Adding criteria to a criteria object never raises the score of an
    output: neither the pre-multiplier score nor, for a multiplier that is
    not negative, the score that is returned. *)
Theorem more_criteria_never_raise_score (output : jsstring)
        (c c' : EvaluationCriteria) (m : Q) :
  extendsCriteria c c' ->
  0 <= m ->
  score (preMultiplier output c') <= score (preMultiplier output c)
  /\ score (evaluateOutputAgainstCriteria output c' m)
     <= score (evaluateOutputAgainstCriteria output c m).
Proof. apply evaluate_mono. Qed.

Lemma more_criteria_never_raise_score_witness :
  score (preMultiplier scenarioA criteriaA) <= score (preMultiplier scenarioA noCriteria)
  /\ score (evaluateOutputAgainstCriteria scenarioA criteriaA 2)
     <= score (evaluateOutputAgainstCriteria scenarioA noCriteria 2).
Proof.
  apply (more_criteria_never_raise_score scenarioA noCriteria criteriaA 2).
  - unfold extendsCriteria. simpl. tauto.
  - discriminate.
Defined.

(** ** The shape of the violation list *)

Definition lengthVerdict (wc : nat) : list Violation :=
  if (wc <? 10)%nat then [too_short]
  else if (wc <? 20)%nat then [very_brief]
  else [].

Definition lengthPenalty (wc : nat) : Q :=
  if (wc <? 10)%nat then 30
  else if (wc <? 20)%nat then 15
  else 0.

Definition notLengthVerdict (v : Violation) : Prop := v <> too_short /\ v <> very_brief.

(** [r'] has the violations of [r] followed by at most [n] more, none of
    them a length verdict. *)
Definition addsAtMost (n : nat) (r r' : EvaluationResult) : Prop :=
  exists more : list Violation,
    violations r' = violations r ++ more
    /\ Forall notLengthVerdict more
    /\ (length more <= n)%nat.

Lemma addsAtMost_refl r : addsAtMost 0 r r.
Proof. exists []. rewrite app_nil_r. repeat split; [constructor | simpl; lia]. Qed.

Lemma addsAtMost_one v p r :
  notLengthVerdict v -> addsAtMost 1 r (penalise v p r).
Proof.
  intros Hv. exists [v]. repeat split; [constructor; [exact Hv | constructor] | simpl; lia].
Qed.

Lemma addsAtMost_weaken n k r r' : (n <= k)%nat -> addsAtMost n r r' -> addsAtMost k r r'.
Proof. intros Hle (more & E & Hall & Hlen). exists more. repeat split; try assumption. lia. Qed.

Lemma addsAtMost_trans n k r1 r2 r3 :
  addsAtMost n r1 r2 -> addsAtMost k r2 r3 -> addsAtMost (n + k) r1 r3.
Proof.
  intros (m1 & E1 & H1 & L1) (m2 & E2 & H2 & L2). exists (m1 ++ m2).
  rewrite E2, E1, <- app_assoc. split; [reflexivity|].
  split; [apply Forall_app; split; assumption|].
  rewrite length_app. lia.
Qed.

Ltac one_violation :=
  first [ apply addsAtMost_weaken with (n := 0%nat); [lia | apply addsAtMost_refl]
        | apply addsAtMost_one; split; discriminate ].

Lemma checkWordCount_adds wc c r : addsAtMost 1 r (checkWordCount wc c r).
Proof.
  unfold checkWordCount. destruct (wordCount c); [destruct (negb _)|]; one_violation.
Qed.

Lemma checkMaxWords_adds wc c r : addsAtMost 1 r (checkMaxWords wc c r).
Proof.
  unfold checkMaxWords. destruct (maxWords c); [destruct (Qltb _ _)|]; one_violation.
Qed.

Lemma checkPrice_adds out c r : addsAtMost 1 r (checkPrice out c r).
Proof.
  unfold checkPrice. destruct (containsPrice c) as [wants|]; [|one_violation].
  destruct wants, (detectPrice out); simpl andb; cbv iota zeta; one_violation.
Qed.

Lemma checkRequired_adds out c r : addsAtMost 1 r (checkRequired out c r).
Proof.
  unfold checkRequired. destruct (requiredElements c) as [required|]; [|one_violation].
  cbv zeta. destruct (containsRequired out required); one_violation.
Qed.

Lemma checkForbidden_adds out c r : addsAtMost 1 r (checkForbidden out c r).
Proof.
  unfold checkForbidden. destruct (forbiddenWords c) as [forbidden|]; [|one_violation].
  cbv zeta. destruct (findForbidden out forbidden); one_violation.
Qed.

Lemma checkSentiment_adds out c r : addsAtMost 1 r (checkSentiment out c r).
Proof.
  unfold checkSentiment. destruct (sentiment c); [|one_violation].
  cbv zeta. destruct (negb _); one_violation.
Qed.

Lemma checkLength_result wc r :
  violations (checkLength wc r) = violations r ++ lengthVerdict wc
  /\ score (checkLength wc r) == score r - lengthPenalty wc.
Proof.
  unfold checkLength, lengthVerdict, lengthPenalty.
  destruct (wc <? 10)%nat; [split; [reflexivity | simpl; lra]|].
  destruct (wc <? 20)%nat; [split; [reflexivity | simpl; lra]|].
  rewrite app_nil_r. split; [reflexivity | lra].
Qed.

(** X4.  The violation list of the criteria evaluator starts with the
    length verdict of the output (too_short under 10 words, very_brief
    under 20, nothing from 20 words on), which is followed by at most six
    violations, none of them a length verdict; and the pre-multiplier score
    is at most 70 minus the length penalty (30, 15 or 0), whatever the
    criteria. *)
Theorem length_verdict_comes_first (output : jsstring) (criteria : EvaluationCriteria) :
  (exists more : list Violation,
      violations (preMultiplier output criteria) = lengthVerdict (countWords output) ++ more
      /\ Forall notLengthVerdict more
      /\ (length more <= 6)%nat)
  /\ score (preMultiplier output criteria) <= 70 - lengthPenalty (countWords output)
  /\ (forall m : Q,
        violations (evaluateOutputAgainstCriteria output criteria m)
        = violations (preMultiplier output criteria)).
Proof.
  unfold preMultiplier. cbv zeta.
  set (wc := countWords output).
  set (r0 := {| score := 70; violations := [] |}).
  set (r1 := checkLength wc r0).
  set (r2 := checkWordCount wc criteria r1).
  set (r3 := checkMaxWords wc criteria r2).
  set (r4 := checkPrice output criteria r3).
  set (r5 := checkRequired output criteria r4).
  set (r6 := checkForbidden output criteria r5).
  set (r7 := checkSentiment output criteria r6).
  destruct (checkLength_result wc r0) as [Hv1 Hs1]. fold r1 in Hv1, Hs1.
  split; [|split; [|reflexivity]].
  - rewrite clampFloor_violations.
    pose proof (addsAtMost_trans _ _ _ _ _
                  (addsAtMost_trans _ _ _ _ _
                     (addsAtMost_trans _ _ _ _ _
                        (addsAtMost_trans _ _ _ _ _
                           (addsAtMost_trans _ _ _ _ _
                              (checkWordCount_adds wc criteria r1)
                              (checkMaxWords_adds wc criteria r2))
                           (checkPrice_adds output criteria r3))
                        (checkRequired_adds output criteria r4))
                     (checkForbidden_adds output criteria r5))
                  (checkSentiment_adds output criteria r6)) as (more & E & Hall & Hlen).
    exists more. fold r2 r3 r4 r5 r6 r7 in E. rewrite E, Hv1.
    repeat split; [exact Hall | simpl in Hlen; lia].
  - pose proof (checkWordCount_le wc criteria r1).
    pose proof (checkMaxWords_le wc criteria r2).
    pose proof (checkPrice_le output criteria r3).
    pose proof (checkRequired_le output criteria r4).
    pose proof (checkForbidden_le output criteria r5).
    pose proof (checkSentiment_le output criteria r6).
    assert (Hr7 : score r7 <= 70 - lengthPenalty wc).
    { change (score r0) with 70 in Hs1. subst r2 r3 r4 r5 r6 r7. lra. }
    assert (Hcap : 0 <= 70 - lengthPenalty wc).
    { unfold lengthPenalty. destruct (wc <? 10)%nat; [discriminate|].
      destruct (wc <? 20)%nat; discriminate. }
    destruct (clampFloor_score r7) as (_ & Hkeep & Hzero).
    destruct (Qlt_le_dec (score r7) 0) as [Hneg | Hpos].
    + rewrite Hzero by lra. exact Hcap.
    + rewrite Hkeep by exact Hpos. exact Hr7.
Qed.

(** ** The reverse-engineering evaluator *)

Lemma lowerUnit_idempotent (c : N) : lowerUnit (lowerUnit c) = lowerUnit c.
Proof.
  unfold lowerUnit, between.
  destruct ((65 <=? c)%N && (c <=? 90)%N) eqn:E; [|rewrite E; reflexivity].
  apply andb_true_iff in E as [E1 E2]. apply N.leb_le in E1, E2.
  destruct (N.leb_spec 65 (c + 32)); [|lia].
  destruct (N.leb_spec (c + 32) 90); [lia | reflexivity].
Qed.

Lemma toLowerCase_idempotent (s : jsstring) : toLowerCase (toLowerCase s) = toLowerCase s.
Proof.
  unfold toLowerCase. rewrite map_map. apply map_ext. exact lowerUnit_idempotent.
Qed.

(** X5.  The reverse-engineering evaluator never scores below 30, so its
    floor clamp is never the result; it reports no violation exactly when
    the score is at least 100; and it does not depend on the case of the
    ASCII letters of the response. *)
Theorem reverse_engineering_laws (userResponse : jsstring) :
  30 <= score (evaluateReverseEngineering userResponse)
  /\ (violations (evaluateReverseEngineering userResponse) = []
      <-> 100 <= score (evaluateReverseEngineering userResponse))
  /\ evaluateReverseEngineering (toLowerCase userResponse)
     = evaluateReverseEngineering userResponse.
Proof.
  split; [|split].
  - unfold evaluateReverseEngineering. cbv zeta.
    repeat match goal with
           | |- context [includesAny ?t ?ws] => destruct (includesAny t ws)
           end;
      apply Qle_bool_iff; vm_compute; reflexivity.
  - unfold evaluateReverseEngineering. cbv zeta.
    repeat match goal with
           | |- context [includesAny ?t ?ws] => destruct (includesAny t ws)
           end;
      (split; intros H;
       first [ simpl in H; discriminate H
             | reflexivity
             | apply Qle_bool_iff in H; vm_compute in H; discriminate H
             | apply Qle_bool_iff; vm_compute; reflexivity ]).
  - unfold evaluateReverseEngineering. rewrite toLowerCase_idempotent. reflexivity.
Qed.

End EvaluatorLaws.

(** * Further properties of the scoring endpoints *)
Module PolicyLaws.
Import Js TextMetrics Evaluator Policy Progress Endpoints Samples.
Import EvaluatorFacts EvaluatorLaws ProgressFacts.
Local Open Scope Q_scope.

(** ** Scores of the submit-prompt policy *)

Lemma multiplierOf_cases (roundNum : Z) :
  multiplierOf roundNum = 1 \/ multiplierOf roundNum = 3 # 2 \/ multiplierOf roundNum = 2.
Proof.
  unfold multiplierOf.
  destruct (roundNum =? 1)%Z; [tauto|].
  destruct (roundNum =? 2)%Z; [tauto|].
  destruct (roundNum =? 3)%Z; tauto.
Qed.

Lemma multiplierOf_nonneg (roundNum : Z) : 0 <= multiplierOf roundNum.
Proof.
  destruct (multiplierOf_cases roundNum) as [-> | [-> | ->]]; discriminate.
Qed.

Lemma round2_nonneg (x : Q) : 0 <= x -> 0 <= round2 x.
Proof.
  intros H. apply (Qle_trans _ (round2 0)); [vm_compute; discriminate|].
  apply round2_le. exact H.
Qed.

Lemma evaluate_range (output : jsstring) (criteria : EvaluationCriteria) :
  0 <= score (evaluateOutputAgainstCriteria output criteria 1) <= 70.
Proof.
  pose proof (preMultiplier_range output criteria) as [Hlo Hhi].
  unfold evaluateOutputAgainstCriteria. cbv zeta. simpl. split.
  - apply round2_nonneg. lra.
  - apply (Qle_trans _ (round2 70)); [apply round2_le; lra | vm_compute; discriminate].
Qed.

Lemma evaluate_nonneg (output : jsstring) (criteria : EvaluationCriteria) (m : Q) :
  0 <= m -> 0 <= score (evaluateOutputAgainstCriteria output criteria m).
Proof.
  intros Hm. pose proof (preMultiplier_range output criteria) as [Hlo Hhi].
  unfold evaluateOutputAgainstCriteria. cbv zeta. simpl. apply round2_nonneg. nra.
Qed.

(** The marker words of the reverse-engineering evaluator, by group. *)
Definition markerWords : list string :=
  (["prompt"; "ask"; "write"; "create"]%string
     ++ ["because"; "likely"; "suggests"; "indicates"; "reasoning"]%string
     ++ ["style"; "format"; "structure"; "detail"]%string
     ++ ["recipe"; "cooking"; "baking"; "ingredients"]%string)%list.

Lemma scoreSubmission_round2_range (prompt llmResp : jsstring) (c : Constraints) :
  45 <= score (scoreSubmission prompt llmResp 2 c) <= 165.
Proof.
  unfold scoreSubmission, evaluateReverseEngineering. cbv zeta.
  change (2 =? 2)%Z with true. cbv iota.
  repeat match goal with
         | |- context [includesAny ?t ?ws] => destruct (includesAny t ws)
         end;
    split; apply Qle_bool_iff; vm_compute; reflexivity.
Qed.

(** X6.  A round-2 submission scores between 45 and 165, and it passes the
    threshold of 60 exactly when the lower-cased prompt contains at least
    one of the seventeen marker words, whatever the generated output. *)
Theorem round2_passes_iff_some_marker (prompt llmResp : jsstring) (c : Constraints) :
  45 <= score (scoreSubmission prompt llmResp 2 c) <= 165
  /\ Qle_bool PASSING_THRESHOLD (score (scoreSubmission prompt llmResp 2 c))
     = includesAny (toLowerCase prompt) markerWords.
Proof.
  unfold scoreSubmission, evaluateReverseEngineering, markerWords, includesAny.
  rewrite !existsb_app. cbv zeta.
  change (2 =? 2)%Z with true. cbv iota.
  repeat match goal with
         | |- context [existsb ?f ?l] => destruct (existsb f l)
         end;
    (split; [split; apply Qle_bool_iff; vm_compute; reflexivity | vm_compute; reflexivity]).
Qed.

Lemma scoreSubmission_blended_range (prompt llmResp : jsstring) (roundNum : Z)
      (c : Constraints) :
  roundNum <> 2%Z ->
  12 * multiplierOf roundNum
    <= score (scoreSubmission prompt llmResp roundNum c)
    <= 82 * multiplierOf roundNum.
Proof.
  intros Hround. unfold scoreSubmission.
  destruct (Z.eqb_spec roundNum 2) as [E|_]; [contradiction|]. cbv zeta. simpl score.
  set (criteria := {| wordCount := None; maxWords := c_maxWords c; containsPrice := None;
                      requiredElements := None; forbiddenWords := c_forbiddenWords c;
                      sentiment := None |}).
  pose proof (evaluate_range llmResp criteria) as [Hlo Hhi].
  pose proof (promptQuality_bounds prompt roundNum) as [Hqlo Hqhi].
  rewrite Zle_Qle in Hqlo, Hqhi.
  change (inject_Z 30) with 30 in Hqlo. change (inject_Z 100) with 100 in Hqhi.
  set (e := score (evaluateOutputAgainstCriteria llmResp criteria 1)) in *.
  set (q := inject_Z (evaluatePromptQuality prompt roundNum)) in *.
  change (round2 (score (preMultiplier llmResp criteria) * 1)) with e.
  assert (Hm : multiplierOf roundNum = 1 \/ multiplierOf roundNum = 2).
  { unfold multiplierOf. destruct (roundNum =? 1)%Z; [tauto|].
    destruct (Z.eqb_spec roundNum 2); [contradiction|].
    destruct (roundNum =? 3)%Z; tauto. }
  destruct Hm as [-> | ->]; split.
  - apply (Qle_trans _ (round2 12)); [vm_compute; discriminate | apply round2_le; lra].
  - apply (Qle_trans _ (round2 82)); [apply round2_le; lra | vm_compute; discriminate].
  - apply (Qle_trans _ (round2 24)); [vm_compute; discriminate | apply round2_le; lra].
  - apply (Qle_trans _ (round2 164)); [apply round2_le; lra | vm_compute; discriminate].
Qed.

(** X7.  In every round other than 2 the final score of a submission lies
    between 12 and 82 times the round multiplier: at most 82 in round 1 and
    at most 164 in round 3, since the output contributes at most 0.6 * 70
    and the prompt at most 0.4 * 100. *)
Theorem blended_score_range (prompt llmResp : jsstring) (roundNum : Z) (c : Constraints) :
  roundNum <> 2%Z ->
  12 * multiplierOf roundNum
    <= score (scoreSubmission prompt llmResp roundNum c)
    <= 82 * multiplierOf roundNum.
Proof. apply scoreSubmission_blended_range. Qed.

Lemma blended_score_range_witness :
  12 * multiplierOf 3
    <= score (scoreSubmission (str "Write a business plan") scenarioA 3 noConstraints)
    <= 82 * multiplierOf 3.
Proof.
  apply (blended_score_range (str "Write a business plan") scenarioA 3 noConstraints).
  discriminate.
Defined.

Lemma scoreSubmission_nonneg (prompt llmResp : jsstring) (roundNum : Z) (c : Constraints) :
  0 <= score (scoreSubmission prompt llmResp roundNum c).
Proof.
  destruct (Z.eq_dec roundNum 2%Z) as [-> | Hne].
  - pose proof (scoreSubmission_round2_range prompt llmResp c). lra.
  - pose proof (scoreSubmission_blended_range prompt llmResp roundNum c Hne) as [Hlo _].
    pose proof (multiplierOf_nonneg roundNum). lra.
Qed.

(** ** The two scoring endpoints, case by case *)

(** The round that the submit-prompt handler scores: [round || 1]. *)
Definition scoredRound (body : SubmitPromptBody) : Z :=
  match round body with
  | Some 0%Z | None => 1%Z
  | Some r => r
  end.

(** What [submitPrompt] does, as three cases. *)
Lemma submitPrompt_cases (st : Store) (body : SubmitPromptBody) (llmResp : jsstring) :
  ((truthy (teamId body) = None \/ truthy (Policy.prompt body) = None)
   /\ submitPrompt st body llmResp = (st, SubmitError 400))
  \/ (exists tid p : list N,
         truthy (teamId body) = Some tid /\ truthy (Policy.prompt body) = Some p
         /\ teams st !! tid = None
         /\ submitPrompt st body llmResp = (st, SubmitError 404))
  \/ (exists (tid p : list N) (old : Q) (rec : Submission),
         truthy (teamId body) = Some tid /\ truthy (Policy.prompt body) = Some p
         /\ teams st !! tid = Some old
         /\ sub_teamId rec = tid /\ sub_round rec = round body
         /\ sub_score rec
            = score (scoreSubmission p llmResp (scoredRound body)
                       (match constraints body with
                        | Some c => c
                        | None => noConstraints
                        end))
         /\ submitPrompt st body llmResp
            = (if Qle_bool 60 (sub_score rec)
               then updateTeamScore tid (old + sub_score rec) (createSubmission rec st)
               else createSubmission rec st,
               SubmitScored (Qle_bool 60 (sub_score rec)) (sub_score rec))).
Proof.
  unfold submitPrompt.
  destruct (truthy (teamId body)) as [tid|]; [|left; split; [tauto | reflexivity]].
  destruct (truthy (Policy.prompt body)) as [p|]; [|left; split; [tauto | reflexivity]].
  destruct (teams st !! tid) as [old|] eqn:Hteam.
  - right. right. cbv zeta.
    match goal with
    | |- context [createSubmission ?record st] => exists tid, p, old, record
    end.
    repeat split; try reflexivity; try exact Hteam.
    change Policy.PASSING_THRESHOLD with 60. simpl sub_score.
    match goal with
    | |- context [Qle_bool 60 ?x] => destruct (Qle_bool 60 x)
    end; reflexivity.
  - right. left. exists tid, p. repeat split; try reflexivity. exact Hteam.
Qed.

(** What [scoreChallenge] does on a request that passes validation. *)
Lemma scoreChallenge_cases (st : Store) (roundParam challengeParam : option Z)
      (body : ScoreBody) :
  ((truthy (sb_llmOutput body) = None \/ getChallenge roundParam challengeParam = inl 400%Z)
   /\ scoreChallenge st roundParam challengeParam body = (st, ScoreError 400))
  \/ (exists (llmOutput : list N) (ch : SeedChallenge) (r : Z) (s : Q) (vs : list Violation),
         truthy (sb_llmOutput body) = Some llmOutput
         /\ getChallenge roundParam challengeParam = inr ch
         /\ 0 <= s
         /\ ((truthy (sb_teamId body) = None
              /\ scoreChallenge st roundParam challengeParam body = (st, ScoreOk r s vs))
             \/ (exists tid : list N,
                    truthy (sb_teamId body) = Some tid /\ teams st !! tid = None
                    /\ scoreChallenge st roundParam challengeParam body
                       = (st, ScoreError 404))
             \/ (exists (tid : list N) (old : Q) (rec : Submission),
                    truthy (sb_teamId body) = Some tid /\ teams st !! tid = Some old
                    /\ sub_teamId rec = tid /\ sub_round rec = Some r
                    /\ sub_score rec = s
                    /\ scoreChallenge st roundParam challengeParam body
                       = (updateTeamScore tid (old + s) (createSubmission rec st),
                          ScoreOk r s vs)))).
Proof.
  unfold scoreChallenge, getChallenge.
  destruct (truthy (sb_llmOutput body)) as [llmOutput|];
    [|left; split; [tauto | reflexivity]].
  destruct (atParam SEED_ROUNDS roundParam) as [roundDef|];
    [|left; split; [tauto | reflexivity]].
  destruct (atParam (challenges roundDef) challengeParam) as [ch|];
    [|left; split; [tauto | reflexivity]].
  right. cbv zeta.
  match goal with
  | |- context [ScoreOk ?r (score ?res) (violations ?res)] =>
      exists llmOutput, ch, r, (score res), (violations res)
  end.
  split; [reflexivity|]. split; [reflexivity|].
  split; [apply evaluate_nonneg, multiplierOf_nonneg|].
  destruct (truthy (sb_teamId body)) as [tid|]; [|left; split; reflexivity].
  right. destruct (teams st !! tid) as [old|] eqn:Hteam.
  - right.
    match goal with
    | |- context [createSubmission ?record st] => exists tid, old, record
    end.
    repeat split; try reflexivity. exact Hteam.
  - left. exists tid. repeat split; try reflexivity. exact Hteam.
Qed.

(** X8.  The submit-prompt endpoint answers 400 exactly when the team id
    or the prompt is missing or empty, and 404 exactly when both are given
    and no team has that id; it gives no other error, and an error leaves
    the store as it was. *)
Theorem submit_prompt_errors (st : Store) (body : SubmitPromptBody) (llmResp : jsstring) :
  (snd (submitPrompt st body llmResp) = SubmitError 400
   <-> truthy (teamId body) = None \/ truthy (Policy.prompt body) = None)
  /\ (snd (submitPrompt st body llmResp) = SubmitError 404
      <-> exists tid : list N,
            truthy (teamId body) = Some tid /\ truthy (Policy.prompt body) <> None
            /\ teams st !! tid = None)
  /\ (forall code : Z,
        snd (submitPrompt st body llmResp) = SubmitError code ->
        fst (submitPrompt st body llmResp) = st /\ (code = 400 \/ code = 404)%Z).
Proof.
  destruct (submitPrompt_cases st body llmResp)
    as [[Hmissing E] | [(tid & p & Ht & Hp & Hteam & E) | (tid & p & old & rec & Ht & Hp & Hteam & _ & _ & _ & E)]];
    rewrite E; simpl fst; simpl snd.
  - split; [tauto|]. split.
    + split; [discriminate|]. intros (tid & Ht & Hp & _).
      destruct Hmissing; congruence.
    + intros code [= <-]. tauto.
  - split; [|split].
    + split; [discriminate|]. intros [H | H]; congruence.
    + split; [|reflexivity]. intros _. exists tid. rewrite Hp. repeat split; congruence.
    + intros code [= <-]. tauto.
  - split; [|split].
    + split; [discriminate|]. intros [H | H]; congruence.
    + split; [discriminate|]. intros (tid' & Ht' & _ & Hnone). congruence.
    + intros code. discriminate.
Qed.

Lemma atParam_some {A : Type} (l : list A) (param : option Z) :
  is_Some (atParam l param)
  <-> exists p : Z, param = Some p /\ (1 <= p <= Z.of_nat (length l))%Z.
Proof.
  unfold atParam. destruct param as [p|].
  - destruct (Z.ltb_spec (p - 1) 0); simpl.
    + split; [intros [x Hx]; discriminate | intros (q & [= <-] & Hq); lia].
    + destruct (Z.leb_spec (Z.of_nat (length l)) (p - 1)).
      * split; [intros [x Hx]; discriminate | intros (q & [= <-] & Hq); lia].
      * split; [intros _; exists p; split; [reflexivity | lia]|].
        intros _. destruct (nth_error l (Z.to_nat (p - 1))) as [x|] eqn:E; [eauto|].
        apply nth_error_None in E. lia.
  - split; [intros [x Hx]; discriminate | intros (q & Hq & _); discriminate].
Qed.

(** X9.  The two challenge routes accept exactly the rounds 1, 2 and 3 with
    challenge 1: every other pair of indexes, and a parameter that is not
    an integer, is answered 400.  The scoring route answers 400 exactly
    when the output is missing or empty or the indexes are refused, and no
    error of this route changes the store. *)
Theorem challenge_routes_validation (st : Store) (roundParam challengeParam : option Z)
        (body : ScoreBody) :
  (getChallenge roundParam challengeParam = inl 400%Z
   <-> ~ ((roundParam = Some 1%Z \/ roundParam = Some 2%Z \/ roundParam = Some 3%Z)
          /\ challengeParam = Some 1%Z))
  /\ (snd (scoreChallenge st roundParam challengeParam body) = ScoreError 400
      <-> truthy (sb_llmOutput body) = None
          \/ getChallenge roundParam challengeParam = inl 400%Z)
  /\ (forall code : Z,
        snd (scoreChallenge st roundParam challengeParam body) = ScoreError code ->
        fst (scoreChallenge st roundParam challengeParam body) = st
        /\ (code = 400 \/ code = 404)%Z).
Proof.
  split; [|split].
  - unfold getChallenge.
    destruct (atParam SEED_ROUNDS roundParam) as [roundDef|] eqn:Hround.
    + assert (Hp : exists p : Z, roundParam = Some p /\ (1 <= p <= 3)%Z)
        by (apply (atParam_some SEED_ROUNDS); eauto).
      destruct Hp as (p & -> & Hp).
      assert (Hlen : length (challenges roundDef) = 1%nat).
      { assert (p = 1 \/ p = 2 \/ p = 3)%Z as [-> | [-> | ->]] by lia;
          injection Hround as <-; reflexivity. }
      destruct (atParam (challenges roundDef) challengeParam) as [ch|] eqn:Hch.
      * destruct (proj1 (atParam_some (challenges roundDef) challengeParam)
                         (ex_intro _ ch Hch)) as (q & -> & Hq).
        rewrite Hlen in Hq. assert (q = 1%Z) as -> by lia.
        split; [discriminate|]. intros Hno. exfalso. apply Hno.
        split; [|reflexivity].
        assert (p = 1 \/ p = 2 \/ p = 3)%Z as [-> | [-> | ->]] by lia; tauto.
      * split; [|reflexivity]. intros _ [_ ->].
        assert (Hsome : is_Some (atParam (challenges roundDef) (Some 1%Z))).
        { apply atParam_some. exists 1%Z. rewrite Hlen. split; [reflexivity | lia]. }
        rewrite Hch in Hsome. destruct Hsome as [x Hx]. discriminate.
    + split; [|reflexivity]. intros _ [Hr _].
      assert (Hsome : is_Some (atParam SEED_ROUNDS roundParam)).
      { apply atParam_some. destruct Hr as [-> | [-> | ->]]; eexists;
          (split; [reflexivity | simpl; lia]). }
      rewrite Hround in Hsome. destruct Hsome as [x Hx]. discriminate.
  - destruct (scoreChallenge_cases st roundParam challengeParam body)
      as [[Hbad E] | (llmOutput & ch & r & s & vs & Hout & Hch & _ & Hrest)].
    + rewrite E. simpl. tauto.
    + split.
      * intros H400.
        destruct Hrest as [[_ E] | [(tid & _ & _ & E) | (tid & old & rec & _ & _ & _ & _ & _ & E)]];
          rewrite E in H400; discriminate.
      * intros [H | H]; congruence.
  - intros code Hcode.
    destruct (scoreChallenge_cases st roundParam challengeParam body)
      as [[Hbad E] | (llmOutput & ch & r & s & vs & Hout & Hch & _ & Hrest)].
    + rewrite E in Hcode |- *. injection Hcode as <-. simpl. tauto.
    + destruct Hrest as [[_ E] | [(tid & _ & _ & E) | (tid & old & rec & _ & _ & _ & _ & _ & E)]];
        rewrite E in Hcode |- *; simpl in Hcode |- *; try discriminate.
      injection Hcode as <-. tauto.
Qed.

(** ** What the scoring endpoints keep of the store *)

(** [st'] has the teams of [st], none with a smaller total, and the
    submissions of [st] followed by at most one new row. *)
Definition grows (st st' : Store) : Prop :=
  dom (teams st') = dom (teams st)
  /\ (forall (id : list N) (total : Q),
        teams st !! id = Some total ->
        exists total' : Q, teams st' !! id = Some total' /\ total <= total')
  /\ (exists new : list Submission,
        submissions st' = submissions st ++ new /\ (length new <= 1)%nat).

Lemma grows_refl (st : Store) : grows st st.
Proof.
  split; [reflexivity|]. split.
  - intros id total H. exists total. split; [exact H | lra].
  - exists []. rewrite app_nil_r. split; [reflexivity | simpl; lia].
Qed.

Lemma grows_create (rec : Submission) (st : Store) : grows st (createSubmission rec st).
Proof.
  split; [reflexivity|]. split.
  - intros id total H. exists total. split; [exact H | lra].
  - exists [rec]. split; [reflexivity | simpl; lia].
Qed.

Lemma grows_update (rec : Submission) (st : Store) (tid : list N) (old s : Q) :
  teams st !! tid = Some old -> 0 <= s ->
  grows st (updateTeamScore tid (old + s) (createSubmission rec st)).
Proof.
  intros Hteam Hs. split; [|split].
  - simpl. rewrite dom_insert_L. apply subseteq_union_1_L.
    apply singleton_subseteq_l, elem_of_dom. eauto.
  - intros id total H. simpl. destruct (decide (tid = id)) as [<- | Hne].
    + rewrite lookup_insert_eq. exists (old + s). split; [reflexivity|].
      assert (total = old) as -> by congruence. lra.
    + rewrite lookup_insert_ne by exact Hne. exists total. split; [exact H | lra].
  - exists [rec]. split; [reflexivity | simpl; lia].
Qed.

(** X10.  Neither scoring endpoint ever removes or adds a team, lowers a
    team's total, or touches an existing submission: after a request the
    Team table has the same ids, every total is at least what it was, and
    the Submission table is the old one followed by at most one row. *)
Theorem scoring_only_grows_the_store (st : Store) :
  (forall (body : SubmitPromptBody) (llmResp : jsstring),
      grows st (fst (submitPrompt st body llmResp)))
  /\ (forall (roundParam challengeParam : option Z) (body : ScoreBody),
        grows st (fst (scoreChallenge st roundParam challengeParam body))).
Proof.
  split.
  - intros body llmResp.
    destruct (submitPrompt_cases st body llmResp)
      as [[_ E] | [(tid & p & _ & _ & _ & E)
                  | (tid & p & old & rec & _ & _ & Hteam & _ & _ & Hscore & E)]];
      rewrite E; simpl fst; try apply grows_refl.
    destruct (Qle_bool 60 (sub_score rec)); [|apply grows_create].
    apply grows_update; [exact Hteam|]. rewrite Hscore. apply scoreSubmission_nonneg.
  - intros roundParam challengeParam body.
    destruct (scoreChallenge_cases st roundParam challengeParam body)
      as [[_ E] | (llmOutput & ch & r & s & vs & _ & _ & Hs & Hrest)].
    + rewrite E. apply grows_refl.
    + destruct Hrest as [[_ E] | [(tid & _ & _ & E)
                                 | (tid & old & rec & _ & Hteam & _ & _ & _ & E)]];
        rewrite E; simpl fst; try apply grows_refl.
      apply grows_update; assumption.
Qed.

(** ** Scoring and progress together *)

Lemma sameString_spec (a b : jsstring) : sameString a b = true <-> a = b.
Proof.
  revert b. induction a as [|x a IH]; intros [|y b]; simpl; split; try congruence.
  - intros H. apply andb_true_iff in H as [Hxy Hab].
    apply N.eqb_eq in Hxy. apply IH in Hab. congruence.
  - intros [= -> ->]. rewrite N.eqb_refl. apply IH. reflexivity.
Qed.

Definition entryOf (rec : Submission) : HistoryEntry :=
  {| h_round := sub_round rec; h_score := sub_score rec |}.

Lemma teamHistory_create (rec : Submission) (st : Store) (id : jsstring) :
  teamHistory (createSubmission rec st) id
  = (if sameString (sub_teamId rec) id then [entryOf rec] else []) ++ teamHistory st id.
Proof.
  unfold teamHistory. simpl submissions.
  rewrite List.filter_app, map_app, rev_app_distr. simpl.
  destruct (sameString (sub_teamId rec) id); reflexivity.
Qed.

Lemma teamHistory_update (st : Store) (tid id : jsstring) (total : Q) :
  teamHistory (updateTeamScore tid total st) id = teamHistory st id.
Proof. reflexivity. Qed.

Lemma levelOf_ext (h h' : list HistoryEntry) (r : Z) :
  (forall k : Z, ofRound h k = ofRound h' k) -> levelOf h r = levelOf h' r.
Proof.
  intros H. unfold levelOf, isPreviousRoundCompleted. cbv zeta.
  rewrite !H. reflexivity.
Qed.

Lemma roundProgress_ext (h h' : list HistoryEntry) :
  (forall k : Z, ofRound h k = ofRound h' k) -> roundProgress h = roundProgress h'.
Proof.
  intros H. unfold roundProgress. simpl.
  rewrite !(levelOf_ext h h' _ H). reflexivity.
Qed.

Lemma completed_by_entry (h : list HistoryEntry) (r : Z) (s : Q) :
  In {| h_round := Some r; h_score := s |} h -> 60 <= s ->
  Qle_bool Progress.PASSING_THRESHOLD (maxScoreFrom0 (ofRound h r)) = true.
Proof.
  intros Hin Hs. apply Qle_bool_iff. unfold Progress.PASSING_THRESHOLD, maxScoreFrom0.
  apply (Qle_trans _ s); [exact Hs|]. apply fold_Qmax_upper.
  apply (in_map h_score _ {| h_round := Some r; h_score := s |}).
  apply List.filter_In. split; [exact Hin|]. simpl. apply Z.eqb_refl.
Qed.

(** X11.  A submission that passes for round 1, 2 or 3 shows in the team's
    progress at once: after the request the progress endpoint reports the
    team's total raised by the score and the round as completed; for
    round 1 and round 2 it also reports the following round, as unlocked.
    Round 3 has no following round in the answer. *)
Theorem passing_submission_completes_round (st st' : Store) (body : SubmitPromptBody)
        (llmResp : jsstring) (r : Z) (s : Q) :
  round body = Some r ->
  (1 <= r <= 3)%Z ->
  submitPrompt st body llmResp = (st', SubmitScored true s) ->
  exists (tid : list N) (old : Q),
    truthy (teamId body) = Some tid
    /\ teams st !! tid = Some old
    /\ teamProgress st' tid = ProgressOk (roundProgress (teamHistory st' tid)) (old + s)
    /\ In (levelOf (teamHistory st' tid) r) (roundProgress (teamHistory st' tid))
    /\ completed (levelOf (teamHistory st' tid) r) = true
    /\ ((r < 3)%Z ->
        In (levelOf (teamHistory st' tid) (r + 1)) (roundProgress (teamHistory st' tid))
        /\ unlocked (levelOf (teamHistory st' tid) (r + 1)) = true).
Proof.
  intros Hround Hr Hsubmit.
  destruct (submitPrompt_cases st body llmResp)
    as [[_ E] | [(tid & p & _ & _ & _ & E)
                | (tid & p & old & rec & Ht & _ & Hteam & Hid & Hrec & _ & E)]];
    rewrite E in Hsubmit; try discriminate.
  injection Hsubmit as Hst Hpass Hs.
  rewrite Hpass in Hst. subst st' s.
  exists tid, old. split; [exact Ht|]. split; [exact Hteam|].
  set (st' := updateTeamScore tid (old + sub_score rec) (createSubmission rec st)).
  assert (Hin : In {| h_round := Some r; h_score := sub_score rec |} (teamHistory st' tid)).
  { unfold st'. rewrite teamHistory_update, teamHistory_create.
    rewrite (proj2 (sameString_spec (sub_teamId rec) tid) Hid).
    left. unfold entryOf. rewrite Hrec, Hround. reflexivity. }
  assert (Hclear : Qle_bool Progress.PASSING_THRESHOLD
                     (maxScoreFrom0 (ofRound (teamHistory st' tid) r)) = true).
  { apply (completed_by_entry _ r (sub_score rec) Hin). apply Qle_bool_iff. exact Hpass. }
  split; [|split; [|split]].
  - unfold teamProgress, st'. simpl teams. rewrite lookup_insert_eq. reflexivity.
  - unfold roundProgress.
    assert (r = 1 \/ r = 2 \/ r = 3)%Z as [-> | [-> | ->]] by lia; simpl; tauto.
  - destruct (levelOf_fields (teamHistory st' tid) r) as (_ & _ & _ & ->). exact Hclear.
  - intros Hnext. split.
    + unfold roundProgress.
      assert (r = 1 \/ r = 2)%Z as [-> | ->] by lia; simpl; tauto.
    + destruct (levelOf_fields (teamHistory st' tid) (r + 1)) as (_ & _ & -> & _).
      unfold isPreviousRoundCompleted.
      destruct (Z.leb_spec (r + 1) 1); [lia|].
      replace (r + 1 - 1)%Z with r by lia. exact Hclear.
Qed.

Lemma passing_submission_completes_round_witness :
  exists (tid : list N) (old : Q),
    truthy (teamId round2Body) = Some tid
    /\ teams oneTeam !! tid = Some old
    /\ teamProgress (fst (submitPrompt oneTeam round2Body scenarioA)) tid
       = ProgressOk
           (roundProgress (teamHistory (fst (submitPrompt oneTeam round2Body scenarioA)) tid))
           (old + (16500 # 100))
    /\ In (levelOf (teamHistory (fst (submitPrompt oneTeam round2Body scenarioA)) tid) 2)
          (roundProgress (teamHistory (fst (submitPrompt oneTeam round2Body scenarioA)) tid))
    /\ completed (levelOf (teamHistory (fst (submitPrompt oneTeam round2Body scenarioA)) tid) 2)
       = true
    /\ In (levelOf (teamHistory (fst (submitPrompt oneTeam round2Body scenarioA)) tid) (2 + 1))
          (roundProgress (teamHistory (fst (submitPrompt oneTeam round2Body scenarioA)) tid))
    /\ unlocked
         (levelOf (teamHistory (fst (submitPrompt oneTeam round2Body scenarioA)) tid) (2 + 1))
       = true.
Proof.
  assert (Hround : round round2Body = Some 2%Z) by reflexivity.
  assert (Hr : (1 <= 2 <= 3)%Z) by lia.
  assert (Hsubmit : submitPrompt oneTeam round2Body scenarioA
                    = (fst (submitPrompt oneTeam round2Body scenarioA),
                       SubmitScored true (16500 # 100)))
    by (vm_compute; reflexivity).
  destruct (passing_submission_completes_round oneTeam
              (fst (submitPrompt oneTeam round2Body scenarioA)) round2Body scenarioA 2
              (16500 # 100) Hround Hr Hsubmit)
    as (tid & old & Ht & Hteam & Hprog & Hin & Hdone & Hnext).
  exists tid, old.
  split; [exact Ht|]. split; [exact Hteam|]. split; [exact Hprog|].
  split; [exact Hin|]. split; [exact Hdone|].
  apply Hnext. lia.
Defined.

(** X12.  A submission sent without a round is scored as a round-1
    submission and, when it passes, raises the team's total by its score;
    but it is recorded with a null round, so the levels that the progress
    endpoint reports for the team are those from before the request. *)
Theorem roundless_submission_makes_no_progress (st st' : Store) (body : SubmitPromptBody)
        (llmResp : jsstring) (passed : bool) (s : Q) :
  round body = None ->
  submitPrompt st body llmResp = (st', SubmitScored passed s) ->
  exists (tid p : list N) (old : Q),
    truthy (teamId body) = Some tid
    /\ truthy (Policy.prompt body) = Some p
    /\ teams st !! tid = Some old
    /\ s = score (scoreSubmission p llmResp 1
                    (match constraints body with
                     | Some c => c
                     | None => noConstraints
                     end))
    /\ teams st' !! tid = Some (if passed then old + s else old)
    /\ roundProgress (teamHistory st' tid) = roundProgress (teamHistory st tid).
Proof.
  intros Hround Hsubmit.
  destruct (submitPrompt_cases st body llmResp)
    as [[_ E] | [(tid & p & _ & _ & _ & E)
                | (tid & p & old & rec & Ht & Hp & Hteam & Hid & Hrec & Hscore & E)]];
    rewrite E in Hsubmit; try discriminate.
  injection Hsubmit as Hst Hpass Hs. subst s passed.
  exists tid, p, old. split; [exact Ht|]. split; [exact Hp|]. split; [exact Hteam|].
  assert (Hone : scoredRound body = 1%Z) by (unfold scoredRound; rewrite Hround; reflexivity).
  rewrite Hone in Hscore. split; [exact Hscore|].
  assert (Hhist : forall st0 : Store,
             submissions st0 = submissions (createSubmission rec st) ->
             roundProgress (teamHistory st0 tid) = roundProgress (teamHistory st tid)).
  { intros st0 Hsubs. apply roundProgress_ext. intros k.
    unfold teamHistory. rewrite Hsubs. fold (teamHistory (createSubmission rec st) tid).
    rewrite teamHistory_create. fold (teamHistory st tid).
    destruct (sameString (sub_teamId rec) tid); [|reflexivity].
    simpl. rewrite Hrec, Hround. reflexivity. }
  destruct (Qle_bool 60 (sub_score rec)); subst st'.
  - split; [simpl; apply lookup_insert_eq | apply Hhist; reflexivity].
  - split; [exact Hteam | apply Hhist; reflexivity].
Qed.

(** A passing round-1 style submission that names no round. *)
Definition roundlessBody : SubmitPromptBody :=
  {| teamId := Some (str "team-1"); round := None; challenge := None;
     prompt := Some (str "Write a detailed product description for our new customers");
     constraints := None |}.

Lemma roundless_submission_makes_no_progress_witness :
  exists (tid p : list N) (old : Q),
    truthy (teamId roundlessBody) = Some tid
    /\ truthy (Policy.prompt roundlessBody) = Some p
    /\ teams oneTeam !! tid = Some old
    /\ 7120 # 100
       = score (scoreSubmission p twentyWords 1
                  (match constraints roundlessBody with
                   | Some c => c
                   | None => noConstraints
                   end))
    /\ teams (fst (submitPrompt oneTeam roundlessBody twentyWords)) !! tid
       = Some (if true then old + (7120 # 100) else old)
    /\ roundProgress (teamHistory (fst (submitPrompt oneTeam roundlessBody twentyWords)) tid)
       = roundProgress (teamHistory oneTeam tid).
Proof.
  apply (roundless_submission_makes_no_progress oneTeam
           (fst (submitPrompt oneTeam roundlessBody twentyWords))
           roundlessBody twentyWords true (7120 # 100)).
  - reflexivity.
  - vm_compute. reflexivity.
Defined.

(** X13.  A request to either scoring endpoint changes nothing of what the
    progress endpoint answers for any other team. *)
Theorem scoring_leaves_other_teams_progress (st : Store) (other : jsstring) :
  (forall (body : SubmitPromptBody) (llmResp : jsstring),
      truthy (teamId body) <> Some other ->
      teamProgress (fst (submitPrompt st body llmResp)) other = teamProgress st other)
  /\ (forall (roundParam challengeParam : option Z) (body : ScoreBody),
        truthy (sb_teamId body) <> Some other ->
        teamProgress (fst (scoreChallenge st roundParam challengeParam body)) other
        = teamProgress st other).
Proof.
  assert (Hcreate : forall (rec : Submission) (st0 : Store),
             sub_teamId rec <> other ->
             teams st0 !! other = teams st !! other ->
             submissions st0 = submissions (createSubmission rec st) ->
             teamProgress st0 other = teamProgress st other).
  { intros rec st0 Hne Hteams Hsubs. unfold teamProgress. rewrite Hteams.
    assert (Hhist : teamHistory st0 other = teamHistory st other).
    { unfold teamHistory. rewrite Hsubs. fold (teamHistory (createSubmission rec st) other).
      rewrite teamHistory_create.
      destruct (sameString (sub_teamId rec) other) eqn:E; [|reflexivity].
      apply sameString_spec in E. contradiction. }
    rewrite Hhist. reflexivity. }
  split.
  - intros body llmResp Hother.
    destruct (submitPrompt_cases st body llmResp)
      as [[_ E] | [(tid & p & _ & _ & _ & E)
                  | (tid & p & old & rec & Ht & _ & _ & Hid & _ & _ & E)]];
      rewrite E; simpl fst; try reflexivity.
    assert (Hne : tid <> other) by congruence.
    destruct (Qle_bool 60 (sub_score rec)).
    + apply (Hcreate rec); [congruence | | reflexivity].
      simpl. apply lookup_insert_ne. exact Hne.
    + apply (Hcreate rec); [congruence | reflexivity | reflexivity].
  - intros roundParam challengeParam body Hother.
    destruct (scoreChallenge_cases st roundParam challengeParam body)
      as [[_ E] | (llmOutput & ch & r & s & vs & _ & _ & _ & Hrest)].
    + rewrite E. reflexivity.
    + destruct Hrest as [[_ E] | [(tid & _ & _ & E)
                                 | (tid & old & rec & Ht & _ & Hid & _ & _ & E)]];
        rewrite E; simpl fst; try reflexivity.
      assert (Hne : tid <> other) by congruence.
      apply (Hcreate rec); [congruence | | reflexivity].
      simpl. apply lookup_insert_ne. exact Hne.
Qed.

Lemma scoring_leaves_other_teams_progress_witness :
  teamProgress (fst (submitPrompt oneTeam round2Body scenarioA)) (str "team-2")
  = teamProgress oneTeam (str "team-2").
Proof.
  apply (proj1 (scoring_leaves_other_teams_progress oneTeam (str "team-2"))).
  discriminate.
Defined.

(** ** Catalog constraints and request criteria *)

(** X23.  In the scoring route the criteria of the request are kept as
    they are and the constraints of the challenge only fill the fields
    that the request leaves out: without constraints (rounds 2 and 3) the
    merged criteria are the request's, and with them the score is never
    above the score against the request's criteria alone. *)
Theorem catalog_constraints_only_add (output : jsstring) (baseCriteria : EvaluationCriteria)
        (constraintCriteria : option SeedConstraint) (m : Q) :
  0 <= m ->
  mergeCriteria baseCriteria None = baseCriteria
  /\ extendsCriteria baseCriteria (mergeCriteria baseCriteria constraintCriteria)
  /\ score (evaluateOutputAgainstCriteria output
              (mergeCriteria baseCriteria constraintCriteria) m)
     <= score (evaluateOutputAgainstCriteria output baseCriteria m).
Proof.
  intros Hm.
  assert (Hext : extendsCriteria baseCriteria (mergeCriteria baseCriteria constraintCriteria)).
  { unfold extendsCriteria, mergeCriteria. cbv zeta. simpl.
    destruct (wordCount baseCriteria), (maxWords baseCriteria),
      (containsPrice baseCriteria), (requiredElements baseCriteria),
      (forbiddenWords baseCriteria), (sentiment baseCriteria); simpl; tauto. }
  split; [|split; [exact Hext|]].
  - unfold mergeCriteria. cbv zeta. destruct baseCriteria as [wc mw price req forb sent].
    simpl. destruct mw, req, forb; reflexivity.
  - apply (evaluate_mono output _ _ m Hext Hm).
Qed.

Lemma catalog_constraints_only_add_witness :
  mergeCriteria noCriteria None = noCriteria
  /\ extendsCriteria noCriteria
       (mergeCriteria noCriteria
          (Some {| seed_maxWords := Some 75; seed_forbiddenWords := Some [str "amazing"];
                   seed_requiredElements := None |}))
  /\ score (evaluateOutputAgainstCriteria scenarioA
              (mergeCriteria noCriteria
                 (Some {| seed_maxWords := Some 75;
                          seed_forbiddenWords := Some [str "amazing"];
                          seed_requiredElements := None |})) 2)
     <= score (evaluateOutputAgainstCriteria scenarioA noCriteria 2).
Proof.
  apply (catalog_constraints_only_add scenarioA noCriteria
           (Some {| seed_maxWords := Some 75; seed_forbiddenWords := Some [str "amazing"];
                    seed_requiredElements := None |}) 2).
  discriminate.
Defined.

End PolicyLaws.

(** * Further properties of the progress computation *)
Module ProgressLaws.
Import Evaluator Progress Samples EvaluatorFacts ProgressFacts.
Local Open Scope Q_scope.

(** The best score of a round clears the threshold exactly when one of the
    round's entries does. *)
Lemma clears_iff_some_entry (h : list HistoryEntry) (r : Z) :
  Qle_bool PASSING_THRESHOLD (maxScoreFrom0 (ofRound h r)) = true
  <-> exists e : HistoryEntry, In e h /\ h_round e = Some r /\ 60 <= h_score e.
Proof.
  rewrite Qle_bool_iff. unfold PASSING_THRESHOLD, maxScoreFrom0. split.
  - intros Hbest.
    destruct (fold_Qmax_cases (map h_score (ofRound h r)) 0) as [E | Hin].
    + rewrite E in Hbest. exfalso. revert Hbest. apply Qlt_not_le. reflexivity.
    + apply in_map_iff in Hin as (e & He & Hin).
      apply List.filter_In in Hin as [Hin Hr]. exists e. split; [exact Hin|].
      split; [|rewrite He; exact Hbest].
      destruct (h_round e) as [x|]; [|discriminate].
      apply Z.eqb_eq in Hr. congruence.
  - intros (e & Hin & Hr & Hs). apply (Qle_trans _ (h_score e)); [exact Hs|].
    apply fold_Qmax_upper. apply in_map. apply List.filter_In.
    split; [exact Hin|]. rewrite Hr. apply Z.eqb_refl.
Qed.

Definition clears (h : list HistoryEntry) (r : Z) : bool :=
  Qle_bool PASSING_THRESHOLD (maxScoreFrom0 (ofRound h r)).

Lemma clears_incl (h h' : list HistoryEntry) (r : Z) :
  incl h h' -> clears h r = true -> clears h' r = true.
Proof.
  unfold clears. intros Hincl H. apply clears_iff_some_entry in H as (e & Hin & He).
  apply clears_iff_some_entry. exists e. split; [apply Hincl; exact Hin | exact He].
Qed.

Lemma previous_incl (h h' : list HistoryEntry) (r : Z) :
  incl h h' -> isPreviousRoundCompleted h r = true -> isPreviousRoundCompleted h' r = true.
Proof.
  unfold isPreviousRoundCompleted. intros Hincl.
  destruct (r <=? 1)%Z; [reflexivity|]. apply (clears_incl h h' (r - 1) Hincl).
Qed.

(** The four flags of a level in terms of the rounds that are cleared. *)
Lemma levelOf_flags (h : list HistoryEntry) (r : Z) :
  unlocked (levelOf h r) = isPreviousRoundCompleted h r
  /\ completed (levelOf h r) = clears h r
  /\ accessible (levelOf h r)
     = (if (r =? 1)%Z then true
        else if (r =? 2)%Z then isPreviousRoundCompleted h 2
        else if (r =? 3)%Z then isPreviousRoundCompleted h 3
        else false)
  /\ locked (levelOf h r)
     = (if (r =? 1)%Z then isPreviousRoundCompleted h 2
        else if (r =? 2)%Z then isPreviousRoundCompleted h 3
        else false).
Proof.
  unfold levelOf. cbv zeta.
  destruct (Z.eqb_spec r 1) as [-> | _]; [repeat split|].
  destruct (Z.eqb_spec r 2) as [-> | _];
    [repeat split; simpl; rewrite ?andb_true_r; reflexivity|].
  destruct (Z.eqb_spec r 3) as [-> | _]; repeat split.
Qed.

Lemma bool_le_eq (a b : bool) : (a = true -> b = true) -> (b = true -> a = true) -> a = b.
Proof. destruct a, b; intuition congruence. Qed.

(** X14.  The unlocked, accessible, locked and completed flags of every
    round depend only on which entries the history has, not on their order
    nor on how often an entry is repeated. *)
Theorem flags_ignore_order_and_repetition (h h' : list HistoryEntry) (r : Z) :
  (forall e : HistoryEntry, In e h <-> In e h') ->
  unlocked (levelOf h r) = unlocked (levelOf h' r)
  /\ accessible (levelOf h r) = accessible (levelOf h' r)
  /\ locked (levelOf h r) = locked (levelOf h' r)
  /\ completed (levelOf h r) = completed (levelOf h' r).
Proof.
  intros Hsame.
  assert (Hincl : incl h h') by (intros e He; apply Hsame; exact He).
  assert (Hincl' : incl h' h) by (intros e He; apply Hsame; exact He).
  assert (Hprev : forall k, isPreviousRoundCompleted h k = isPreviousRoundCompleted h' k)
    by (intros k; apply bool_le_eq; apply previous_incl; assumption).
  assert (Hclears : clears h r = clears h' r)
    by (apply bool_le_eq; apply clears_incl; assumption).
  destruct (levelOf_flags h r) as (-> & -> & -> & ->).
  destruct (levelOf_flags h' r) as (-> & -> & -> & ->).
  rewrite !Hprev, Hclears. repeat split; reflexivity.
Qed.

Lemma flags_ignore_order_and_repetition_witness :
  unlocked (levelOf [entry 1 75; entry 2 10] 2)
  = unlocked (levelOf [entry 2 10; entry 1 75; entry 2 10] 2)
  /\ accessible (levelOf [entry 1 75; entry 2 10] 2)
     = accessible (levelOf [entry 2 10; entry 1 75; entry 2 10] 2)
  /\ locked (levelOf [entry 1 75; entry 2 10] 2)
     = locked (levelOf [entry 2 10; entry 1 75; entry 2 10] 2)
  /\ completed (levelOf [entry 1 75; entry 2 10] 2)
     = completed (levelOf [entry 2 10; entry 1 75; entry 2 10] 2).
Proof.
  apply (flags_ignore_order_and_repetition
           [entry 1 75; entry 2 10] [entry 2 10; entry 1 75; entry 2 10] 2).
  intros e. simpl. tauto.
Defined.

(** X15.  Progress never goes back: when a history is extended by further
    entries, a round that was unlocked, accessible, locked or completed
    stays so, and a best score never gets smaller. *)
Theorem progress_is_monotone (h h' : list HistoryEntry) (r : Z) :
  incl h h' ->
  (unlocked (levelOf h r) = true -> unlocked (levelOf h' r) = true)
  /\ (accessible (levelOf h r) = true -> accessible (levelOf h' r) = true)
  /\ (locked (levelOf h r) = true -> locked (levelOf h' r) = true)
  /\ (completed (levelOf h r) = true -> completed (levelOf h' r) = true)
  /\ (forall m : Q, bestScore (levelOf h r) = Some m ->
        exists m' : Q, bestScore (levelOf h' r) = Some m' /\ m <= m').
Proof.
  intros Hincl.
  destruct (levelOf_flags h r) as (-> & -> & -> & ->).
  destruct (levelOf_flags h' r) as (-> & -> & -> & ->).
  split; [apply previous_incl; exact Hincl|].
  split; [destruct (r =? 1)%Z; [tauto|]; destruct (r =? 2)%Z;
          [apply previous_incl; exact Hincl|]; destruct (r =? 3)%Z;
          [apply previous_incl; exact Hincl | tauto]|].
  split; [destruct (r =? 1)%Z; [apply previous_incl; exact Hincl|];
          destruct (r =? 2)%Z; [apply previous_incl; exact Hincl | tauto]|].
  split; [apply clears_incl; exact Hincl|].
  intros m.
  destruct (levelOf_fields h r) as (_ & -> & _).
  destruct (levelOf_fields h' r) as (_ & -> & _).
  unfold maxScoreFrom0.
  set (l := map h_score (ofRound h r)). set (l' := map h_score (ofRound h' r)).
  assert (Hl : incl l l').
  { intros x Hx. apply in_map_iff in Hx as (e & <- & He).
    apply List.filter_In in He as [He Hr]. apply in_map. apply List.filter_In.
    split; [apply Hincl; exact He | exact Hr]. }
  destruct (Qltb 0 (fold_left Qmax l 0)) eqn:E; [|discriminate].
  intros [= <-]. apply Qltb_true in E.
  assert (Hle : fold_left Qmax l 0 <= fold_left Qmax l' 0).
  { destruct (fold_Qmax_cases l 0) as [E0 | Hin].
    - rewrite E0. apply fold_Qmax_init.
    - apply fold_Qmax_upper. apply Hl. exact Hin. }
  assert (Hpos : Qltb 0 (fold_left Qmax l' 0) = true) by (apply Qltb_true; lra).
  rewrite Hpos. eexists. split; [reflexivity | exact Hle].
Qed.

Lemma progress_is_monotone_witness :
  unlocked (levelOf [entry 2 80; entry 1 75] 2) = true.
Proof.
  apply (proj1 (progress_is_monotone [entry 1 75] [entry 2 80; entry 1 75] 2
                  (incl_tl (entry 2 80) (incl_refl [entry 1 75])))).
  reflexivity.
Defined.

(** X16.  The flags of the three levels hang together: a round is
    completed exactly when its best score is reported and is at least 60;
    completing round 1 (round 2) is what unlocks round 2 (round 3) and
    what locks round 1 (round 2); round 1 is always accessible, round 3 is
    accessible once unlocked and is never locked; and a round without an
    attempt is not completed. *)
Theorem levels_are_consistent (h : list HistoryEntry) (r : Z) :
  (completed (levelOf h r) = true
   <-> exists m : Q, bestScore (levelOf h r) = Some m /\ 60 <= m)
  /\ unlocked (levelOf h 2) = completed (levelOf h 1)
  /\ unlocked (levelOf h 3) = completed (levelOf h 2)
  /\ locked (levelOf h 1) = completed (levelOf h 1)
  /\ locked (levelOf h 2) = completed (levelOf h 2)
  /\ locked (levelOf h 3) = false
  /\ accessible (levelOf h 1) = true
  /\ accessible (levelOf h 3) = unlocked (levelOf h 3)
  /\ (attempts (levelOf h r) = 0%nat -> completed (levelOf h r) = false).
Proof.
  split; [|repeat split].
  - destruct (levelOf_fields h r) as (_ & -> & _ & ->).
    rewrite Qle_bool_iff. unfold PASSING_THRESHOLD.
    destruct (Qltb 0 (maxScoreFrom0 (ofRound h r))) eqn:E.
    + split; [intros H; eexists; split; [reflexivity | exact H]|].
      intros (m & [= <-] & Hm). exact Hm.
    + apply Qltb_false in E. split; [intros H; lra|].
      intros (m & Hm & _). discriminate.
  - destruct (levelOf_fields h r) as (-> & _ & _ & ->).
    intros Hlen. apply length_zero_iff_nil in Hlen. rewrite Hlen. reflexivity.
Qed.

Lemma levels_are_consistent_witness :
  completed (levelOf [entry 2 80] 1) = false.
Proof.
  apply (proj2 (proj2 (proj2 (proj2 (proj2 (proj2 (proj2 (proj2
           (levels_are_consistent [entry 2 80] 1))))))))).
  reflexivity.
Defined.

End ProgressLaws.

(** * Properties of the text metrics and of the remaining endpoints *)
Module TextLaws.
Import Js Re TextMetrics Evaluator Policy Endpoints Samples.
Local Open Scope nat_scope.

(** ** [countWords] counts the maximal runs of word characters *)

(** The number of runs of word characters that start in [t], where
    [inWord] tells that the position before [t] is inside a run. *)
Fixpoint wordRuns (inWord : bool) (t : jsstring) : nat :=
  match t with
  | [] => O
  | c :: t' =>
      if isWordChar c
      then (if inWord then O else 1%nat) + wordRuns true t'
      else wordRuns false t'
  end.

(** The length of the longest prefix of [t] made of characters in [p]. *)
Fixpoint prefixLen (p : N -> bool) (t : jsstring) : nat :=
  match t with
  | [] => O
  | c :: t' => if p c then S (prefixLen p t') else O
  end.

Lemma prefixLen_le (p : N -> bool) (t : jsstring) : (prefixLen p t <= length t)%nat.
Proof.
  induction t as [|c t IH]; simpl; [lia|]. destruct (p c); simpl; lia.
Qed.

Lemma repeat1_class (p : N -> bool) (fuel : nat) (prev : option N) (t : jsstring) :
  (length t < fuel)%nat ->
  match repeat1 (run false (Cls p)) fuel (prev, t) with
  | [] => prefixLen p t = O
  | (_, rest) :: _ =>
      (0 < prefixLen p t)%nat /\ (length rest + prefixLen p t = length t)%nat
  end.
Proof.
  revert prev t. induction fuel as [|k IH]; intros prev t Hfuel; [lia|].
  destruct t as [|c t]; [reflexivity|].
  change (repeat1 (run false (Cls p)) (S k) (prev, c :: t))
    with (flat_map (fun st' => repeat1 (run false (Cls p)) k st' ++ [st'])
                   (if p c then [(Some c, t)] else [])).
  simpl prefixLen. destruct (p c); [|reflexivity].
  cbn [flat_map]. rewrite app_nil_r.
  specialize (IH (Some c) t). simpl in Hfuel.
  destruct (repeat1 (run false (Cls p)) k (Some c, t)) as [|[q rest] more].
  - cbn [app length]. rewrite IH by lia. lia.
  - cbn [app length]. destruct IH as [Hpos Hlen]; [lia|]. lia.
Qed.

Lemma matchHere_class_plus (p : N -> bool) (prev : option N) (t : jsstring) :
  matchHere false (Plus (Cls p)) (prev, t)
  = match prefixLen p t with
    | O => None
    | S n => Some (S n)
    end.
Proof.
  unfold matchHere.
  change (run false (Plus (Cls p)) (prev, t))
    with (repeat1 (run false (Cls p)) (S (length t)) (prev, t)).
  pose proof (repeat1_class p (S (length t)) prev t (Nat.lt_succ_diag_r _)) as H.
  destruct (repeat1 (run false (Cls p)) (S (length t)) (prev, t)) as [|[q rest] more].
  - rewrite H. reflexivity.
  - destruct H as [Hpos Hlen]. simpl snd.
    destruct (prefixLen p t) as [|n]; [lia|]. f_equal. lia.
Qed.

Lemma countFrom_runs (t : jsstring) :
  (forall prev : option N,
      countFrom false (Plus (Cls isWordChar)) O prev t = wordRuns false t)
  /\ (forall prev : option N,
        countFrom false (Plus (Cls isWordChar)) (prefixLen isWordChar t) prev t
        = wordRuns true t).
Proof.
  induction t as [|c t [IH0 IH1]].
  - split; intros prev; reflexivity.
  - assert (H0 : forall prev : option N,
               countFrom false (Plus (Cls isWordChar)) O prev (c :: t)
               = wordRuns false (c :: t)).
    { intros prev. simpl countFrom. rewrite matchHere_class_plus.
      simpl prefixLen. simpl wordRuns. destruct (isWordChar c).
      - simpl Nat.pred. rewrite IH1. reflexivity.
      - apply IH0. }
    split; [exact H0|].
    intros prev. simpl prefixLen. destruct (isWordChar c) eqn:E.
    + simpl countFrom. simpl wordRuns. rewrite E. apply IH1.
    + rewrite H0. simpl. rewrite E. reflexivity.
Qed.

Lemma wordRuns_split (inWord : bool) (a b : jsstring) (c : N) :
  isWordChar c = false ->
  wordRuns inWord (a ++ c :: b) = (wordRuns inWord a + wordRuns false b)%nat.
Proof.
  intros Hc. revert inWord. induction a as [|x a IH]; intros inWord; simpl.
  - rewrite Hc. reflexivity.
  - destruct (isWordChar x); rewrite IH; lia.
Qed.

Lemma wordRuns_bound (inWord : bool) (t : jsstring) :
  (2 * wordRuns inWord t <= length t + (if inWord then 0 else 1))%nat.
Proof.
  revert inWord. induction t as [|c t IH]; intros inWord; simpl.
  - destruct inWord; lia.
  - destruct (isWordChar c).
    + specialize (IH true). destruct inWord; simpl in *; lia.
    + specialize (IH false). destruct inWord; simpl in *; lia.
Qed.

Lemma countWords_wordRuns (text : jsstring) : countWords text = wordRuns false text.
Proof.
  unfold countWords, matchCount. destruct text as [|c t]; [reflexivity|].
  apply (proj1 (countFrom_runs (c :: t))).
Qed.

(** X17.  [countWords], the number of matches of [/\w+/g], is the number of
    maximal runs of word characters: a text of n code units has at most
    (n + 1) / 2 words, and the words of two texts joined by a character
    that is not a word character add up. *)
Theorem countWords_counts_runs (text : jsstring) :
  countWords text = wordRuns false text
  /\ (2 * countWords text <= length text + 1)%nat
  /\ (forall (rest : jsstring) (c : N),
        isWordChar c = false ->
        countWords (text ++ c :: rest) = (countWords text + countWords rest)%nat).
Proof.
  split; [apply countWords_wordRuns|]. split.
  - rewrite countWords_wordRuns. apply (wordRuns_bound false).
  - intros rest c Hc. rewrite !countWords_wordRuns. apply wordRuns_split. exact Hc.
Qed.

Lemma countWords_counts_runs_witness :
  countWords (str "5000mAh battery" ++ 44%N :: str " 108MP")
  = (countWords (str "5000mAh battery") + countWords (str " 108MP"))%nat.
Proof.
  apply (proj2 (proj2 (countWords_counts_runs (str "5000mAh battery")))).
  reflexivity.
Defined.

(** ** A forbidden word that is found is part of the text *)

Lemma run_lit_needs_prefix (w : jsstring) (prev : option N) (t : jsstring) :
  startsWith t w = false -> run false (lit w) (prev, t) = [].
Proof.
  revert prev t. induction w as [|a w IH]; intros prev t H;
    [destruct t; discriminate|].
  destruct t as [|x t]; [reflexivity|].
  simpl in H. simpl lit. simpl run. unfold canonicalize. simpl andb. cbv iota.
  rewrite N.eqb_sym. destruct (a =? x)%N; [|reflexivity].
  simpl in H. simpl. rewrite (IH (Some x) t H). reflexivity.
Qed.

Lemma wholeWord_needs_prefix (w : jsstring) (prev : option N) (t : jsstring) :
  startsWith t w = false ->
  matchHere false (Cat WordBoundary (Cat (lit w) WordBoundary)) (prev, t) = None.
Proof.
  intros H. unfold matchHere. simpl run.
  destruct (xorb _ _); simpl; [|reflexivity].
  rewrite (run_lit_needs_prefix w prev t H). reflexivity.
Qed.

Lemma testFrom_step (ignoreCase : bool) (r : regex) (prev : option N) (t : jsstring) :
  testFrom ignoreCase r prev t
  = match matchHere ignoreCase r (prev, t) with
    | Some _ => true
    | None =>
        match t with
        | [] => false
        | c :: t' => testFrom ignoreCase r (Some c) t'
        end
    end.
Proof. destruct t; reflexivity. Qed.

Lemma includes_step (t w : jsstring) :
  includes t w
  = (startsWith t w
     || match t with
        | [] => false
        | _ :: t' => includes t' w
        end).
Proof. destruct t; reflexivity. Qed.

Lemma wholeWord_included (w : jsstring) (prev : option N) (t : jsstring) :
  testFrom false (Cat WordBoundary (Cat (lit w) WordBoundary)) prev t = true ->
  includes t w = true.
Proof.
  revert prev. induction t as [|c t IH]; intros prev H;
    rewrite testFrom_step in H; rewrite includes_step;
    destruct (startsWith _ w) eqn:E; try reflexivity;
    rewrite (wholeWord_needs_prefix w prev _ E) in H.
  - discriminate.
  - simpl. exact (IH _ H).
Qed.

(** X18.  Whatever [findForbidden] returns is one of the listed words and
    occurs in the lower-cased text; so no word is at once reported as a
    forbidden word that was found and, by [containsRequired] on the same
    list, as a required element that is missing. *)
Theorem found_words_occur_in_text (text : jsstring) (ws : list jsstring) (w : jsstring) :
  In w (findForbidden text ws) ->
  In w ws
  /\ includes (toLowerCase text) (toLowerCase w) = true
  /\ ~ In w (containsRequired text ws).
Proof.
  unfold findForbidden, containsRequired. cbv zeta. intros H.
  apply List.filter_In in H as [Hin Htest].
  apply wholeWord_included in Htest.
  split; [exact Hin|]. split; [exact Htest|].
  intros Hmissing. apply List.filter_In in Hmissing as [_ Hneg].
  rewrite Htest in Hneg. discriminate.
Qed.

Lemma found_words_occur_in_text_witness :
  In (str "amazing") [str "amazing"]
  /\ includes (toLowerCase scenarioA) (toLowerCase (str "amazing")) = true
  /\ ~ In (str "amazing") (containsRequired scenarioA [str "amazing"]).
Proof.
  apply (found_words_occur_in_text scenarioA [str "amazing"] (str "amazing")).
  vm_compute. left. reflexivity.
Defined.

(** ** [escapeRegExp] *)

Lemma escape_cons (c : N) (s : jsstring) :
  escapeRegExp (c :: s)
  = (if isSyntaxChar c then [92%N; c] else [c]) ++ escapeRegExp s.
Proof. reflexivity. Qed.

Lemma escape_length (a : jsstring) :
  (length a <= length (escapeRegExp a) <= 2 * length a)%nat.
Proof.
  induction a as [|x a IH]; [simpl; lia|].
  rewrite escape_cons, length_app. destruct (isSyntaxChar x); simpl; lia.
Qed.

(** X19.  [escapeRegExp] loses nothing: two different texts have different
    escaped forms; the escaped form is between one and two times as long
    as the text; and it is the text itself exactly when the text has no
    syntax character. *)
Theorem escapeRegExp_is_faithful (a : jsstring) :
  (forall b : jsstring, escapeRegExp a = escapeRegExp b -> a = b)
  /\ (length a <= length (escapeRegExp a) <= 2 * length a)%nat
  /\ (escapeRegExp a = a <-> existsb isSyntaxChar a = false).
Proof.
  split; [|split].
  - induction a as [|x a IH]; intros [|y b] H.
    + reflexivity.
    + rewrite escape_cons in H. destruct (isSyntaxChar y); discriminate.
    + rewrite escape_cons in H. destruct (isSyntaxChar x); discriminate.
    + rewrite !escape_cons in H.
      destruct (isSyntaxChar x) eqn:Ex, (isSyntaxChar y) eqn:Ey; simpl in H.
      * injection H as Hxy H. subst y. f_equal. exact (IH b H).
      * injection H as Hy H. subst y. discriminate.
      * injection H as Hx H. subst x. discriminate.
      * injection H as Hxy H. subst y. f_equal. exact (IH b H).
  - apply escape_length.
  - induction a as [|x a [IH1 IH2]]; [split; reflexivity|].
    rewrite escape_cons. simpl existsb. destruct (isSyntaxChar x) eqn:Ex; simpl.
    + split; [|discriminate]. intros [= _ H]. exfalso.
      pose proof (escape_length a) as [Hlen _].
      apply (f_equal (@length N)) in H. simpl in H. lia.
    + split.
      * intros [= H]. exact (IH1 H).
      * intros H. f_equal. exact (IH2 H).
Qed.

Lemma escapeRegExp_is_faithful_witness :
  escapeRegExp (str "world-class") = str "world-class".
Proof.
  apply (proj2 (proj2 (escapeRegExp_is_faithful (str "world-class")))).
  reflexivity.
Defined.

(** ** A price needs a digit *)

(** Every match of the pattern consumes a code unit of the class [P]. *)
Inductive needs (P : N -> bool) : regex -> Prop :=
| needs_cls : needs P (Cls P)
| needs_cat_l (r1 r2 : regex) : needs P r1 -> needs P (Cat r1 r2)
| needs_cat_r (r1 r2 : regex) : needs P r2 -> needs P (Cat r1 r2)
| needs_alt (r1 r2 : regex) : needs P r1 -> needs P r2 -> needs P (Alt r1 r2)
| needs_plus (r : regex) : needs P r -> needs P (Plus r).

Definition suffixOf (a b : jsstring) : Prop := exists pre : jsstring, b = pre ++ a.

Lemma suffixOf_refl (a : jsstring) : suffixOf a a.
Proof. exists []. reflexivity. Qed.

Lemma suffixOf_trans (a b c : jsstring) : suffixOf a b -> suffixOf b c -> suffixOf a c.
Proof. intros [p ->] [q ->]. exists (q ++ p). apply app_assoc. Qed.

Lemma repeat1_suffix (f : mstate -> list mstate) :
  (forall st st' : mstate, In st' (f st) -> suffixOf (snd st') (snd st)) ->
  forall (fuel : nat) (st st' : mstate),
    In st' (repeat1 f fuel st) -> suffixOf (snd st') (snd st).
Proof.
  intros Hf fuel. induction fuel as [|k IH]; intros st st' H; [destruct H|].
  simpl in H. apply in_flat_map in H as (st1 & H1 & H).
  apply in_app_or in H as [H | [<- | []]].
  - apply (suffixOf_trans _ (snd st1)); [apply (IH _ _ H) | apply (Hf _ _ H1)].
  - apply (Hf _ _ H1).
Qed.

Lemma run_suffix (ignoreCase : bool) (r : regex) (st st' : mstate) :
  In st' (run ignoreCase r st) -> suffixOf (snd st') (snd st).
Proof.
  revert st st'.
  induction r as [ | c | p | | r1 IH1 r2 IH2 | r1 IH1 r2 IH2 | r1 IH1 | r1 IH1 ];
    intros st st' H; simpl in H.
  - destruct H as [<- | []]. apply suffixOf_refl.
  - destruct (snd st) as [|x t] eqn:E; [destruct H|].
    destruct (_ =? _)%N; [|destruct H]. destruct H as [<- | []]. exists [x]. reflexivity.
  - destruct (snd st) as [|x t] eqn:E; [destruct H|].
    destruct (p x); [|destruct H]. destruct H as [<- | []]. exists [x]. reflexivity.
  - destruct (xorb _ _); [|destruct H]. destruct H as [<- | []]. apply suffixOf_refl.
  - apply in_flat_map in H as (st1 & H1 & H).
    apply (suffixOf_trans _ (snd st1)); [apply (IH2 _ _ H) | apply (IH1 _ _ H1)].
  - apply in_app_or in H as [H | H]; [apply (IH1 _ _ H) | apply (IH2 _ _ H)].
  - apply in_app_or in H as [H | [<- | []]]; [apply (IH1 _ _ H) | apply suffixOf_refl].
  - apply (repeat1_suffix _ IH1 (S (length (snd st))) st st' H).
Qed.

Lemma existsb_suffix (P : N -> bool) (a b : jsstring) :
  suffixOf a b -> existsb P a = true -> existsb P b = true.
Proof. intros [pre ->] H. rewrite existsb_app, H. apply orb_true_r. Qed.

Lemma run_needs (P : N -> bool) (ignoreCase : bool) (r : regex) :
  needs P r ->
  forall st st' : mstate, In st' (run ignoreCase r st) -> existsb P (snd st) = true.
Proof.
  induction 1 as [ | r1 r2 _ IH | r1 r2 _ IH | r1 r2 _ IH1 _ IH2 | r1 _ IH ];
    intros st st' H; simpl in H.
  - destruct (snd st) as [|x t]; [destruct H|].
    destruct (P x) eqn:E; [|destruct H]. simpl. rewrite E. reflexivity.
  - apply in_flat_map in H as (st1 & H1 & _). apply (IH _ _ H1).
  - apply in_flat_map in H as (st1 & H1 & H).
    apply (existsb_suffix P (snd st1)); [apply (run_suffix _ _ _ _ H1) | apply (IH _ _ H)].
  - apply in_app_or in H as [H | H]; [apply (IH1 _ _ H) | apply (IH2 _ _ H)].
  - apply in_flat_map in H as (st1 & H1 & _). apply (IH _ _ H1).
Qed.

Lemma test_needs (P : N -> bool) (ignoreCase : bool) (r : regex) (t : jsstring) :
  needs P r -> existsb P t = false -> test ignoreCase r t = false.
Proof.
  intros Hr. unfold test. generalize (@None N).
  induction t as [|c t IH]; intros prev Hno; rewrite testFrom_step; unfold matchHere.
  - destruct (run ignoreCase r (prev, [])) as [|[q rest] more] eqn:E; [reflexivity|].
    assert (Hin : In (q, rest) (run ignoreCase r (prev, [])))
      by (rewrite E; left; reflexivity).
    pose proof (run_needs P ignoreCase r Hr _ _ Hin) as Hyes. discriminate.
  - destruct (run ignoreCase r (prev, c :: t)) as [|[q rest] more] eqn:E.
    + apply IH. simpl in Hno. apply orb_false_iff in Hno. tauto.
    + assert (Hin : In (q, rest) (run ignoreCase r (prev, c :: t)))
        by (rewrite E; left; reflexivity).
      pose proof (run_needs P ignoreCase r Hr _ _ Hin) as Hyes.
      simpl snd in Hyes. congruence.
Qed.

Lemma pricePatterns_need_digit :
  Forall (fun p : bool * regex => needs isDigit (snd p)) pricePatterns.
Proof.
  unfold pricePatterns. repeat constructor; simpl;
    solve [eauto 12 using needs_cls, needs_cat_l, needs_cat_r, needs_plus].
Qed.

Lemma violations_kept (n : nat) (r r' : EvaluationResult) (v : Violation) :
  EvaluatorLaws.addsAtMost n r r' -> In v (violations r) -> In v (violations r').
Proof. intros (more & -> & _) H. apply in_or_app. left. exact H. Qed.

(** X20.  [detectPrice] never finds a price in a text without a digit; so
    when the criteria ask for a price, a digit-free output always gets the
    missing_price violation. *)
Theorem no_digit_no_price (text : jsstring) (criteria : EvaluationCriteria) :
  existsb isDigit text = false ->
  detectPrice text = false
  /\ (containsPrice criteria = Some true ->
      In missing_price (violations (preMultiplier text criteria))).
Proof.
  intros Hno.
  assert (Hprice : detectPrice text = false).
  { unfold detectPrice. destruct text as [|c t]; [reflexivity|].
    pose proof (proj1 (List.Forall_forall _ _) pricePatterns_need_digit) as Hall.
    destruct (existsb _ pricePatterns) eqn:E; [|reflexivity].
    apply existsb_exists in E as (p & Hin & Htest).
    rewrite (test_needs isDigit (fst p) (snd p) (c :: t) (Hall p Hin) Hno) in Htest.
    discriminate. }
  split; [exact Hprice|]. intros Hwants.
  unfold preMultiplier. cbv zeta. rewrite EvaluatorFacts.clampFloor_violations.
  apply (violations_kept _ _ _ _ (EvaluatorLaws.checkSentiment_adds _ _ _)).
  apply (violations_kept _ _ _ _ (EvaluatorLaws.checkForbidden_adds _ _ _)).
  apply (violations_kept _ _ _ _ (EvaluatorLaws.checkRequired_adds _ _ _)).
  unfold checkPrice at 1. rewrite Hwants, Hprice. simpl.
  apply in_or_app. right. left. reflexivity.
Qed.

Lemma no_digit_no_price_witness :
  detectPrice (str "Price: fifty rupees") = false
  /\ In missing_price (violations (preMultiplier (str "Price: fifty rupees") priceWanted)).
Proof.
  assert (Hno : existsb isDigit (str "Price: fifty rupees") = false) by reflexivity.
  destruct (no_digit_no_price (str "Price: fifty rupees") priceWanted Hno)
    as [Hprice Hmissing].
  split; [exact Hprice | apply Hmissing; reflexivity].
Defined.

(** ** Trimmed names *)

Lemma dropWhile_head (p : N -> bool) (s : jsstring) (c : N) (rest : jsstring) :
  dropWhile p s = c :: rest -> p c = false.
Proof.
  induction s as [|x s IH]; simpl; [discriminate|].
  destruct (p x) eqn:E; [exact IH|]. intros [= <- _]. exact E.
Qed.

Lemma dropWhile_nil (p : N -> bool) (s : jsstring) :
  dropWhile p s = [] <-> forallb p s = true.
Proof.
  induction s as [|x s IH]; simpl; [tauto|].
  destruct (p x); simpl; [exact IH|]. split; discriminate.
Qed.

Lemma dropWhile_fixed (p : N -> bool) (s : jsstring) :
  (forall c rest, s = c :: rest -> p c = false) -> dropWhile p s = s.
Proof.
  destruct s as [|x s]; [reflexivity|]. intros H. simpl.
  rewrite (H x s eq_refl). reflexivity.
Qed.

Lemma dropWhile_suffix (p : N -> bool) (s : jsstring) :
  exists pre : jsstring, s = pre ++ dropWhile p s.
Proof.
  induction s as [|x s [pre IH]]; [exists []; reflexivity|].
  simpl. destruct (p x); [|exists []; reflexivity].
  exists (x :: pre). simpl. f_equal. exact IH.
Qed.

Lemma forallb_rev (p : N -> bool) (s : jsstring) : forallb p (rev s) = forallb p s.
Proof.
  induction s as [|x s IH]; [reflexivity|].
  simpl. rewrite forallb_app, IH. simpl. rewrite andb_true_r. apply andb_comm.
Qed.

Lemma trim_blank (s : jsstring) : trim s = [] <-> forallb isSpace s = true.
Proof.
  unfold trim. split.
  - intros H. apply (f_equal (@rev N)) in H. rewrite rev_involutive in H. simpl in H.
    apply dropWhile_nil in H. rewrite forallb_rev in H.
    destruct (dropWhile isSpace s) as [|c rest] eqn:E; [apply dropWhile_nil; exact E|].
    apply dropWhile_head in E. simpl in H. rewrite E in H. discriminate.
  - intros H. apply dropWhile_nil in H. rewrite H. reflexivity.
Qed.

Lemma trim_last (s init : jsstring) (c : N) : trim s = init ++ [c] -> isSpace c = false.
Proof.
  unfold trim. intros H. apply (f_equal (@rev N)) in H.
  rewrite rev_involutive, rev_app_distr in H. simpl in H.
  apply dropWhile_head in H. exact H.
Qed.

Lemma trim_first (s rest : jsstring) (c : N) : trim s = c :: rest -> isSpace c = false.
Proof.
  unfold trim. intros H. apply (f_equal (@rev N)) in H.
  rewrite rev_involutive in H. simpl in H.
  destruct (dropWhile_suffix isSpace (rev (dropWhile isSpace s))) as [pre Hpre].
  rewrite H in Hpre. apply (f_equal (@rev N)) in Hpre.
  rewrite rev_involutive, !rev_app_distr, rev_involutive in Hpre. simpl in Hpre.
  apply dropWhile_head in Hpre. exact Hpre.
Qed.

Lemma trim_idempotent (s : jsstring) : trim (trim s) = trim s.
Proof.
  unfold trim at 1.
  rewrite (dropWhile_fixed isSpace (trim s)) by (intros c rest; apply trim_first).
  rewrite (dropWhile_fixed isSpace (rev (trim s))); [apply rev_involutive|].
  intros c rest H. apply (f_equal (@rev N)) in H. rewrite rev_involutive in H.
  simpl in H. apply (trim_last s _ c H).
Qed.

(** A text that is stored after [trim]: not empty, without white space at
    either end, and left as it is by a further [trim]. *)
Definition trimmedOf (stored name : jsstring) : Prop :=
  stored = trim name
  /\ stored <> []
  /\ (forall c rest, stored = c :: rest -> isSpace c = false)
  /\ (forall init c, stored = init ++ [c] -> isSpace c = false)
  /\ trim stored = stored.

Lemma trimmedOf_trim (name : jsstring) : trim name <> [] -> trimmedOf (trim name) name.
Proof.
  intros H. split; [reflexivity|]. split; [exact H|].
  split; [intros c rest; apply trim_first|].
  split; [intros init c; apply trim_last | apply trim_idempotent].
Qed.

(** X21.  Team registration, for members that are an array when present,
    answers 400, and nothing else, exactly when the name is missing or has
    only white space; otherwise the row that it
    creates carries the name trimmed, which is not empty and has no white
    space at either end, and neither its members text nor its status is
    the empty string. *)
Theorem registration_stores_trimmed_name (body : CreateTeamBody) :
  (registerTeam body = inl 400%Z
   <-> forall name : jsstring, ct_name body = Some name -> forallb isSpace name = true)
  /\ (forall code : Z, registerTeam body = inl code -> code = 400%Z)
  /\ (forall row : NewTeam,
        registerTeam body = inr row ->
        exists name : jsstring,
          ct_name body = Some name
          /\ trimmedOf (nt_name row) name
          /\ nt_members row <> Some []
          /\ nt_status row <> Some []).
Proof.
  unfold registerTeam. destruct (ct_name body) as [[|c name]|];
    change (truthy (Some (@nil N))) with (@None (list N));
    try change (truthy (Some (c :: name))) with (Some (c :: name)); cbv iota beta.
  - split; [split; [intros _ name [= <-]; reflexivity | reflexivity]|].
    split; [intros code [= <-]; reflexivity | discriminate].
  - destruct (trim (c :: name)) as [|x rest] eqn:E.
    + split; [split; [intros _ name' [= <-]; apply trim_blank; exact E | reflexivity]|].
      split; [intros code [= <-]; reflexivity | discriminate].
    + assert (Hne : trim (c :: name) <> []) by (rewrite E; discriminate).
      split; [split; [discriminate|]|].
      * intros H. exfalso. apply Hne, trim_blank, H. reflexivity.
      * split; [discriminate|]. intros row [= <-]. exists (c :: name).
        split; [reflexivity|]. simpl. rewrite <- E.
        split; [apply trimmedOf_trim; exact Hne|].
        split.
        -- destruct (ct_members body) as [members|]; [|discriminate].
           destruct (joinComma members); discriminate.
        -- destruct (ct_status body) as [[|y status]|]; discriminate.
  - split; [split; [intros _ name; discriminate | reflexivity]|].
    split; [intros code [= <-]; reflexivity | discriminate].
Qed.

Lemma registration_stores_trimmed_name_witness :
  exists name : jsstring,
    ct_name {| ct_name := Some (str "  Team Rocket "); ct_members := Some [];
               ct_status := None |} = Some name
    /\ trimmedOf (str "Team Rocket") name
    /\ (None : option jsstring) <> Some []
    /\ (None : option jsstring) <> Some [].
Proof.
  apply (proj2 (proj2 (registration_stores_trimmed_name
                         {| ct_name := Some (str "  Team Rocket "); ct_members := Some [];
                            ct_status := None |}))
           {| nt_name := str "Team Rocket"; nt_members := None; nt_status := None |}).
  reflexivity.
Defined.

(** X22.  The status update answers 400 exactly when the status is missing
    or has only white space, whether or not the team exists; 404 exactly
    when the status is acceptable and no team has the id; and otherwise
    writes the status trimmed. *)
Theorem status_update_validation (st : Store) (id : jsstring) (status : option jsstring) :
  (updateStatus st id status = inl 400%Z
   <-> forall s : jsstring, status = Some s -> forallb isSpace s = true)
  /\ (updateStatus st id status = inl 404%Z
      <-> (exists s : jsstring, status = Some s /\ forallb isSpace s = false)
          /\ teams st !! id = None)
  /\ (forall written : jsstring,
        updateStatus st id status = inr written ->
        is_Some (teams st !! id)
        /\ exists s : jsstring, status = Some s /\ trimmedOf written s).
Proof.
  unfold updateStatus. destruct status as [[|c s]|];
    change (truthy (Some (@nil N))) with (@None (list N));
    try change (truthy (Some (c :: s))) with (Some (c :: s)); cbv iota beta.
  - split; [split; [intros _ s [= <-]; reflexivity | reflexivity]|].
    split; [|discriminate].
    split; [discriminate | intros [(s & [= <-] & H) _]; discriminate].
  - destruct (trim (c :: s)) as [|x rest] eqn:E.
    + assert (Hblank : forallb isSpace (c :: s) = true) by (apply trim_blank; exact E).
      split; [split; [intros _ s' [= <-]; exact Hblank | reflexivity]|].
      split; [|discriminate].
      split; [discriminate | intros [(s' & [= <-] & H) _]; congruence].
    + assert (Hne : trim (c :: s) <> []) by (rewrite E; discriminate).
      assert (Hvisible : forallb isSpace (c :: s) = false).
      { destruct (forallb isSpace (c :: s)) eqn:F; [|reflexivity].
        exfalso. apply Hne, trim_blank, F. }
      destruct (teams st !! id) as [total|] eqn:Hteam.
      * split; [split; [discriminate|]|].
        -- intros H. rewrite (H _ eq_refl) in Hvisible. discriminate.
        -- split; [split; [discriminate | intros [_ H]; discriminate]|].
           intros written [= <-]. split; [eauto|]. exists (c :: s).
           split; [reflexivity|]. rewrite <- E. apply trimmedOf_trim. exact Hne.
      * split; [split; [discriminate|]|].
        -- intros H. rewrite (H _ eq_refl) in Hvisible. discriminate.
        -- split; [|discriminate].
           split; [intros _; split; [eauto | reflexivity] | reflexivity].
  - split; [split; [intros _ s; discriminate | reflexivity]|].
    split; [|discriminate].
    split; [discriminate | intros [(s & H & _) _]; discriminate].
Qed.

Lemma status_update_validation_witness :
  is_Some (teams oneTeam !! str "team-1")
  /\ exists s : jsstring, Some (str " paused ") = Some s /\ trimmedOf (str "paused") s.
Proof.
  apply (proj2 (proj2 (status_update_validation oneTeam (str "team-1")
                         (Some (str " paused ")))) (str "paused")).
  vm_compute. reflexivity.
Defined.

End TextLaws.
